(** * arXiv tools of [multi_tool_agent/arxiv_agent.py]

    A shallow embedding of the three tool operations
    ([search_arxiv_papers], [summarize_arxiv_paper],
    [answer_paper_question]) and of the helper [_extract_arxiv_id],
    together with the fragment of Python's [re] module they rely on.

    Modelling conventions.
    - A Python [str] is a [string]; inside the regular-expression engine
      it is the list of its characters.  A character is a code point
      below 256 (the Latin-1 range), held in an [ascii].  On that range
      [\d] is [0-9]; [\w] and [str.lower] are given by the tables below.
    - [re] is a backtracking engine: quantifiers are greedy, alternation
      is ordered, and [re.search] tries the start positions from left to
      right.  [match_re] is written in continuation-passing style so that
      failure of the continuation makes the engine back off, exactly as
      the library does.
    - The [arxiv] package is external.  A request to it answers with a
      lazy feed of results which may end by raising; requests are logged
      so that "the client was not contacted" can be stated. *)

From Stdlib Require Import List Ascii String Bool Arith Lia ZArith QArith.
Import ListNotations.

Set Implicit Arguments.

Local Open Scope string_scope.
Local Open Scope list_scope.
Local Open Scope nat_scope.

(** ** Characters and character classes *)

Definition str := list ascii.

Definition code (c : ascii) : nat := nat_of_ascii c.

Definition between (lo hi : nat) (c : ascii) : bool :=
  (lo <=? code c) && (code c <=? hi).

(** [\d] *)
Definition digit (c : ascii) : bool := between 48 57 c.

(** [[a-zA-Z.-]] *)
Definition id_prefix_char (c : ascii) : bool :=
  between 97 122 c || between 65 90 c || (code c =? 46) || (code c =? 45).

(** A literal character. *)
Definition lit (a : ascii) (c : ascii) : bool := Ascii.eqb a c.

(** [\w]: alphanumeric characters and the underscore.  Above 127 these
    are the Latin-1 letters and the numeric signs (superscripts and
    fractions). *)
Definition word_char (c : ascii) : bool :=
  between 48 57 c || between 65 90 c || between 97 122 c || (code c =? 95)
  || (code c =? 170) || (code c =? 178) || (code c =? 179) || (code c =? 181)
  || (code c =? 185) || (code c =? 186) || between 188 190 c
  || between 192 214 c || between 216 246 c || between 248 255 c.

(** [\W] *)
Definition non_word_char (c : ascii) : bool := negb (word_char c).

(** ** The regular-expression fragment used by the patterns *)

Inductive regex : Type :=
| Cls (p : ascii -> bool)
| Rep (p : ascii -> bool) (lo : nat) (hi : option nat)
| Seq (r1 r2 : regex)
| Alt (r1 r2 : regex)
| Opt (r : regex).

Definition may_take (hi : option nat) : bool :=
  match hi with
  | Some 0 => false
  | _ => true
  end.

Definition give_back (lo : nat) (k : str -> option str) (s : str) : option str :=
  match lo with
  | 0 => k s
  | S _ => None
  end.

(** Greedy [p{lo,hi}]: take one more character whenever possible and
    come back to the shorter repetition only if the rest of the pattern
    fails. *)
Fixpoint rep_greedy (p : ascii -> bool) (lo : nat) (hi : option nat)
    (s : str) (k : str -> option str) : option str :=
  match s with
  | c :: s' =>
      if p c && may_take hi then
        match rep_greedy p (pred lo) (option_map pred hi) s' k with
        | Some x => Some x
        | None => give_back lo k s
        end
      else give_back lo k s
  | [] => give_back lo k s
  end.

(** [match_re r s k] matches [r] at the start of [s] and hands what is
    left of [s] to [k]; the first success in backtracking order wins. *)
Fixpoint match_re (r : regex) (s : str) (k : str -> option str) : option str :=
  match r with
  | Cls p =>
      match s with
      | c :: s' => if p c then k s' else None
      | [] => None
      end
  | Rep p lo hi => rep_greedy p lo hi s k
  | Seq r1 r2 => match_re r1 s (fun s' => match_re r2 s' k)
  | Alt r1 r2 =>
      match match_re r1 s k with
      | Some x => Some x
      | None => match_re r2 s k
      end
  | Opt r1 =>
      match match_re r1 s k with
      | Some x => Some x
      | None => k s
      end
  end.

(** [re.search(r, s).group(0)], or [None] when there is no match. *)
Fixpoint re_search (r : regex) (s : str) : option str :=
  match match_re r s (@Some str) with
  | Some rest => Some (firstn (List.length s - List.length rest) s)
  | None =>
      match s with
      | [] => None
      | _ :: s' => re_search r s'
      end
  end.

(** The language of a pattern, independently of the engine. *)
Definition within (hi : option nat) (n : nat) : Prop :=
  match hi with
  | Some h => n <= h
  | None => True
  end.

Inductive Matches : regex -> str -> Prop :=
| MCls p c : p c = true -> Matches (Cls p) [c]
| MRep p lo hi w :
    Forall (fun c => p c = true) w -> lo <= List.length w -> within hi (List.length w) ->
    Matches (Rep p lo hi) w
| MSeq r1 r2 w1 w2 : Matches r1 w1 -> Matches r2 w2 -> Matches (Seq r1 r2) (w1 ++ w2)
| MAltL r1 r2 w : Matches r1 w -> Matches (Alt r1 r2) w
| MAltR r1 r2 w : Matches r2 w -> Matches (Alt r1 r2) w
| MOptSome r w : Matches r w -> Matches (Opt r) w
| MOptNone r : Matches (Opt r) [].

(** ** The patterns of [_extract_arxiv_id] *)

(** [(v\d+)?] *)
Definition version_suffix : regex :=
  Opt (Seq (Cls (lit "v")) (Rep digit 1 None)).

(** [(v\d)?] *)
Definition version_suffix_1 : regex :=
  Opt (Seq (Cls (lit "v")) (Cls digit)).

(** [\d{4}\.\d{4,5}(v\d+)?] *)
Definition modern_id : regex :=
  Seq (Rep digit 4 (Some 4))
    (Seq (Cls (lit ".")) (Seq (Rep digit 4 (Some 5)) version_suffix)).

(** [[a-zA-Z.-]+/\d{7}(v\d+)?] *)
Definition legacy_id : regex :=
  Seq (Rep id_prefix_char 1 None)
    (Seq (Cls (lit "/")) (Seq (Rep digit 7 (Some 7)) version_suffix)).

(** [(\d{4}\.\d{4,5}(v\d+)?|[a-zA-Z.-]+/\d{7}(v\d+)?)] *)
Definition broad_pattern : regex := Alt modern_id legacy_id.

(** [[a-zA-Z.-]*\d{4}\.\d{4,5}(v\d)?] *)
Definition core_modern : regex :=
  Seq (Rep id_prefix_char 0 None)
    (Seq (Rep digit 4 (Some 4))
      (Seq (Cls (lit ".")) (Seq (Rep digit 4 (Some 5)) version_suffix_1))).

(** [[a-zA-Z.-]+/\d{7}(v\d)?] *)
Definition core_legacy : regex :=
  Seq (Rep id_prefix_char 1 None)
    (Seq (Cls (lit "/")) (Seq (Rep digit 7 (Some 7)) version_suffix_1)).

(** [([a-zA-Z.-]*\d{4}\.\d{4,5}(v\d)?|[a-zA-Z.-]+/\d{7}(v\d)?)] *)
Definition core_pattern : regex := Alt core_modern core_legacy.

Definition _extract_arxiv_id (id_or_url : string) : option string :=
  match re_search broad_pattern (list_ascii_of_string id_or_url) with
  | Some group0 =>
      match re_search core_pattern group0 with
      | Some core => Some (string_of_list_ascii core)
      | None => Some (string_of_list_ascii group0)
      end
  | None => None
  end.

(** ** String operations of Python used by the tools *)

(** [str.lower] on the Latin-1 range: the letters A-Z and the accented
    capitals move 32 places up. *)
Definition lower_char (c : ascii) : ascii :=
  if between 65 90 c || between 192 214 c || between 216 222 c
  then ascii_of_nat (code c + 32)
  else c.

Fixpoint lower (s : string) : string :=
  match s with
  | EmptyString => EmptyString
  | String c s' => String (lower_char c) (lower s')
  end.

(** [w in s] for two strings: [w] occurs somewhere in [s]. *)
Fixpoint contains (s w : string) : bool :=
  String.prefix w s ||
  match s with
  | EmptyString => false
  | String _ s' => contains s' w
  end.

(** [s.split(sep)] for a one-character separator. *)
Fixpoint split_char (sep : ascii) (s : string) : list string :=
  match s with
  | EmptyString => [EmptyString]
  | String c s' =>
      if Ascii.eqb c sep then EmptyString :: split_char sep s'
      else
        match split_char sep s' with
        | piece :: pieces => String c piece :: pieces
        | [] => [String c EmptyString]
        end
  end.

(** [l[-1]] on a list of strings that is never empty. *)
Definition last_item (l : list string) : string := last l EmptyString.

(** [re.split(r, s)] for a pattern [r] that matches no empty string, as
    [\W+] does.  [piece] holds, reversed, the characters read since the
    last separator; [skip] counts the characters of the current separator
    still to pass over. *)
Fixpoint split_from (r : regex) (s : str) (skip : nat) (piece : str) : list str :=
  match s with
  | [] => [rev piece]
  | c :: s' =>
      match skip with
      | S n => split_from r s' n piece
      | 0 =>
          match match_re r s (@Some str) with
          | Some rest =>
              match List.length s - List.length rest with
              | S n => rev piece :: split_from r s' n []
              | 0 => split_from r s' 0 (c :: piece)
              end
          | None => split_from r s' 0 (c :: piece)
          end
      end
  end.

Definition re_split (r : regex) (s : string) : list string :=
  map string_of_list_ascii (split_from r (list_ascii_of_string s) 0 []).

(** [\W+] *)
Definition non_word_run : regex := Rep non_word_char 1 None.

(** ** Stop words *)

Definition STOP_WORDS : list string :=
  [ "a"; "an"; "the"; "is"; "are"; "was"; "were"; "be"; "been"; "being";
    "have"; "has"; "had"; "do"; "does"; "did"; "will"; "would"; "should";
    "can"; "could"; "may"; "might"; "must"; "and"; "but"; "or"; "nor";
    "for"; "so"; "yet"; "in"; "on"; "at"; "by"; "from"; "to"; "with";
    "about"; "above"; "after"; "again"; "against"; "all"; "am"; "as";
    "because"; "before"; "below"; "between"; "both"; "during"; "each";
    "few"; "further"; "here"; "how"; "i"; "if"; "into"; "it"; "its";
    "itself"; "just"; "me"; "more"; "most"; "my"; "myself"; "no"; "not";
    "now"; "of"; "off"; "once"; "only"; "other"; "our"; "ours";
    "ourselves"; "out"; "over"; "own"; "same"; "she"; "he"; "they";
    "them"; "their"; "theirs"; "themselves"; "then"; "there"; "these";
    "this"; "those"; "through"; "too"; "under"; "until"; "up"; "very";
    "we"; "what"; "when"; "where"; "which"; "while"; "who"; "whom"; "why";
    "you"; "your"; "yours"; "yourself"; "yourselves" ].

(** [word in STOP_WORDS] *)
Definition is_stop_word (word : string) : bool :=
  existsb (String.eqb word) STOP_WORDS.

(** Truth value of a string: the empty string is false. *)
Definition truthy (s : string) : bool :=
  match s with
  | EmptyString => false
  | String _ _ => true
  end.

(** The comprehension that builds [question_words]. *)
Definition question_words (question : string) : list string :=
  filter (fun word => truthy word && negb (is_stop_word word))
    (re_split non_word_run (lower question)).

(** The loop that counts [found_keywords]. *)
Definition count_found (abstract_lower : string) (words : list string) : Z :=
  fold_left
    (fun found_keywords word =>
       if contains abstract_lower word then (found_keywords + 1)%Z
       else found_keywords)
    words 0%Z.

(** [n / 2] is a true division.  A double holds [n / 2] exactly for every
    [n] below [2^53], which no list length reaches, and Python compares
    an integer with a float exactly; so the test is taken in [Q]. *)
Definition half (n : Z) : Q := (inject_Z n / 2)%Q.

Definition gt_Q (a b : Q) : bool :=
  match Qcompare a b with
  | Gt => true
  | _ => false
  end.

Definition more_than_half (found_keywords : Z) (words : list string) : bool :=
  gt_Q (inject_Z found_keywords) (half (Z.of_nat (List.length words))).

(** ** The external arXiv client *)

(** [arxiv.SortCriterion] *)
Inductive SortCriterion : Type := Relevance | LastUpdatedDate | SubmittedDate.

(** The two ways the tools build an [arxiv.Search]. *)
Inductive request : Type :=
| Search_query (query : string) (max_results : nat) (sort_by : SortCriterion)
| Search_id_list (id_list : list string).

(** An [arxiv.Result], reduced to the fields the tools read.
    [published_ymd] is [published.strftime("%Y-%m-%d")] and [authors]
    holds the [name] of each author. *)
Record Result : Type := {
  title : string;
  authors : list string;
  published_ymd : string;
  summary : string;
  entry_id : string;
  primary_category : string;
  pdf_url : string
}.

(** An instance of [Exception], seen through [str(e)]. *)
Inductive exn : Type := Exception (text : string).

Definition str_of_exn (e : exn) : string :=
  match e with
  | Exception text => text
  end.

(** What a [raise] can carry: an instance of [Exception], which
    [except Exception] catches, or an instance of another subclass of
    [BaseException], such as [KeyboardInterrupt], which it lets pass. *)
Inductive raised : Type :=
| Error (e : exn)
| Interrupt (name : string).

(** What the generator [search.results()] does when it is consumed: it
    yields [items] one after the other and then either stops or raises. *)
Record feed : Type := {
  items : list Result;
  failure : option raised
}.

Definition arxiv_client : Type := request -> feed.

(** ** Values returned to the caller *)

#[warnings="-register-all"]
Inductive value : Type :=
| Str (s : string)
| Arr (l : list value)
| Obj (d : list (string * value)).

Definition dict : Type := list (string * value).

Fixpoint get (d : dict) (key : string) : option value :=
  match d with
  | [] => None
  | (k, v) :: d' => if String.eqb k key then Some v else get d' key
  end.

(** ** Computations that may raise and that contact the client *)

Inductive outcome (A : Type) : Type :=
| Returns (a : A)
| Raises (e : raised).

Arguments Returns {A} a.
Arguments Raises {A} e.

(** A computation threads the list of the requests sent so far. *)
Definition Py (A : Type) : Type := list request -> outcome A * list request.

Definition ret {A : Type} (a : A) : Py A := fun sent => (Returns a, sent).

Definition bind {A B : Type} (m : Py A) (k : A -> Py B) : Py B :=
  fun sent =>
    match m sent with
    | (Returns a, sent') => k a sent'
    | (Raises e, sent') => (Raises e, sent')
    end.

Definition lift {A : Type} (o : outcome A) : Py A := fun sent => (o, sent).

(** [try: body except Exception as e: handler(e)]: an instance of
    [Exception] goes to the handler, anything else raised goes on. *)
Definition try_except {A : Type} (body : Py A) (handler : exn -> Py A) : Py A :=
  fun sent =>
    match body sent with
    | (Returns a, sent') => (Returns a, sent')
    | (Raises (Error e), sent') => handler e sent'
    | (Raises (Interrupt name), sent') => (Raises (Interrupt name), sent')
    end.

Notation "x <- m ;; k" := (bind m (fun x => k))
  (at level 61, m at next level, right associativity).

(** [for result in ...: papers_list.append(details(result))] *)
Fixpoint for_each (details : Result -> value) (rest : list Result)
    (end_ : option raised) (papers_list : list value) : outcome (list value) :=
  match rest with
  | result :: rest' => for_each details rest' end_ (papers_list ++ [details result])
  | [] =>
      match end_ with
      | Some e => Raises e
      | None => Returns papers_list
      end
  end.

(** [next(gen, None)]: only the head of the feed is consumed. *)
Definition next_or_None (f : feed) : outcome (option Result) :=
  match items f with
  | paper :: _ => Returns (Some paper)
  | [] =>
      match failure f with
      | Some e => Raises e
      | None => Returns None
      end
  end.

(** The dictionary built for one paper. *)
Definition paper_details (result : Result) : value :=
  Obj [ ("title", Str (title result));
        ("authors", Arr (map Str (authors result)));
        ("published_date", Str (published_ymd result));
        ("summary", Str (summary result));
        ("arxiv_id", Str (last_item (split_char "/" (entry_id result))));
        ("primary_category", Str (primary_category result));
        ("pdf_link", Str (pdf_url result)) ].

Section Tools.

Variable client : arxiv_client.

(** Consuming [search.results()] sends the request. *)
Definition results (search : request) : Py feed :=
  fun sent => (Returns (client search), sent ++ [search]).

Definition search_arxiv_papers (query : string) : Py dict :=
  try_except
    (let search := Search_query query 5 Relevance in
     answer <- results search ;;
     papers_list <- lift (for_each paper_details (items answer) (failure answer) []) ;;
     match papers_list with
     | [] =>
         ret [ ("status", Str "success");
               ("papers", Arr []);
               ("message", Str "No papers found matching your query.") ]
     | _ :: _ =>
         ret [ ("status", Str "success"); ("papers", Arr papers_list) ]
     end)
    (fun e => ret [ ("status", Str "error"); ("message", Str (str_of_exn e)) ]).

Definition summarize_arxiv_paper (arxiv_id_or_url : string) : Py dict :=
  let invalid :=
    ret [ ("status", Str "error");
          ("message", Str "Invalid arXiv ID or URL format.") ] in
  try_except
    (match _extract_arxiv_id arxiv_id_or_url with
     | None => invalid
     | Some arxiv_id =>
         if negb (truthy arxiv_id) then invalid
         else
           let search := Search_id_list [arxiv_id] in
           answer <- results search ;;
           paper <- lift (next_or_None answer) ;;
           match paper with
           | Some paper =>
               ret [ ("status", Str "success"); ("paper", paper_details paper) ]
           | None =>
               ret [ ("status", Str "error");
                     ("message", Str "Paper not found or invalid ID.") ]
           end
     end)
    (fun e => ret [ ("status", Str "error"); ("message", Str (str_of_exn e)) ]).

Definition answer_paper_question (arxiv_id_or_url question : string) : Py dict :=
  let invalid :=
    ret [ ("status", Str "error");
          ("message", Str "Invalid arXiv ID or URL format.") ] in
  try_except
    (match _extract_arxiv_id arxiv_id_or_url with
     | None => invalid
     | Some arxiv_id =>
         if negb (truthy arxiv_id) then invalid
         else
           let search := Search_id_list [arxiv_id] in
           answer <- results search ;;
           paper <- lift (next_or_None answer) ;;
           match paper with
           | None =>
               ret [ ("status", Str "error");
                     ("message",
                      Str ("Paper with ID '" ++ arxiv_id ++ "' not found.")%string) ]
           | Some paper =>
               let abstract := summary paper in
               let title := title paper in
               let question_words := question_words question in
               match question_words with
               | [] =>
                   ret [ ("status", Str "success");
                         ("answer_type", Str "not_enough_keywords");
                         ("message",
                          Str "Your question did not contain enough significant keywords after removing common words. Please try a more specific question.");
                         ("abstract", Str abstract);
                         ("title", Str title) ]
               | _ :: _ =>
                   let abstract_lower := lower abstract in
                   let found_keywords := count_found abstract_lower question_words in
                   if more_than_half found_keywords question_words then
                     ret [ ("status", Str "success");
                           ("answer_type", Str "found_in_abstract");
                           ("message",
                            Str "The abstract may contain information relevant to your question. Please review it.");
                           ("abstract", Str abstract);
                           ("title", Str title) ]
                   else
                     ret [ ("status", Str "success");
                           ("answer_type", Str "not_found_in_abstract");
                           ("message",
                            Str "I could not find specific information for your question in the paper's abstract.");
                           ("abstract", Str abstract);
                           ("title", Str title) ]
               end
           end
     end)
    (fun e =>
       ret [ ("status", Str "error");
             ("message", Str ("An error occurred: " ++ str_of_exn e)%string) ]).

End Tools.

(** ** Vocabulary of the statements *)

(** Every character of [w] is in the class [p]. *)
Definition all (p : ascii -> bool) (w : str) : Prop :=
  Forall (fun c => p c = true) w.

(** The whole string is a word of the pattern. *)
Definition fullmatch (r : regex) (s : string) : Prop :=
  Matches r (list_ascii_of_string s).

(** The characters a word of the pattern can be made of. *)
Fixpoint alphabet (r : regex) (c : ascii) : bool :=
  match r with
  | Cls p => p c
  | Rep p _ _ => p c
  | Seq r1 r2 => alphabet r1 c || alphabet r2 c
  | Alt r1 r2 => alphabet r1 c || alphabet r2 c
  | Opt r1 => alphabet r1 c
  end.

(** White space in the sense of [str.isspace], on the Latin-1 range. *)
Definition is_space (c : ascii) : bool :=
  between 9 13 c || between 28 32 c || (code c =? 133) || (code c =? 160).

(** How many times the character [x] occurs in [s]. *)
Definition occurrences (x : ascii) (s : string) : nat :=
  count_occ ascii_dec (list_ascii_of_string s) x.

(** [\d{4}\.\d{4,5}(v\d)?]: a modern identifier whose version, if any,
    has one digit. *)
Definition modern_id_1 : regex :=
  Seq (Rep digit 4 (Some 4))
    (Seq (Cls (lit ".")) (Seq (Rep digit 4 (Some 5)) version_suffix_1)).

(** The class [p] cannot be continued into [rest]. *)
Definition blocked (p : ascii -> bool) (rest : str) : Prop :=
  match rest with
  | [] => True
  | c :: _ => p c = false
  end.

(** A text that can follow an identifier without being read as part of
    it: it is empty or starts with a character that is neither a digit
    nor the letter v. *)
Definition not_continuing (suffix : str) : Prop :=
  match suffix with
  | [] => True
  | c :: _ => digit c = false /\ c <> "v"%char
  end.

(** [v[key]] for a value that is a dictionary. *)
Definition field (v : value) (key : string) : option value :=
  match v with
  | Obj d => get d key
  | _ => None
  end.

(** A result envelope: the status is [success], or it is [error] and
    there is a message. *)
Definition envelope (d : dict) : Prop :=
  get d "status" = Some (Str "success") \/
  (get d "status" = Some (Str "error") /\
   exists message, get d "message" = Some (Str message)).

(** The character [c] does not occur in [s]. *)
Definition free_of (c : ascii) (s : string) : Prop :=
  ~ In c (list_ascii_of_string s).

(** The version suffix cut after its first digit. *)
Definition cut_version (v : str) : str :=
  match v with
  | a :: d :: _ => [a; d]
  | _ => v
  end.

(** The answer type the keyword test gives for a list of tokens. *)
Definition classification (abstract : string) (words : list string) : string :=
  match words with
  | [] => "not_enough_keywords"
  | _ :: _ =>
      if more_than_half (count_found (lower abstract) words) words
      then "found_in_abstract"
      else "not_found_in_abstract"
  end.

(** The tokens of the question that occur in the lower-cased abstract. *)
Definition matched_tokens (abstract : string) (words : list string) : list string :=
  filter (contains (lower abstract)) words.

(** ** The keyword test as the specification words it *)

(** [word] occurs in [text] as a substring. *)
Definition occurs_in (word text : string) : Prop :=
  exists before after, text = (before ++ word ++ after)%string.

(** The elements of a list that have the property [P], in their
    order and as often as they come. *)
Inductive Selected {A : Type} (P : A -> Prop) : list A -> list A -> Prop :=
| Selected_nil : Selected P [] []
| Selected_keep x l l' : P x -> Selected P l l' -> Selected P (x :: l) (x :: l')
| Selected_drop x l l' : ~ P x -> Selected P l l' -> Selected P (x :: l) l'.

(** The non-empty tokens left when a text is split at its runs of
    non-word characters: a run of non-word characters, possibly empty
    at the start, then a non-empty run of word characters that ends at
    the end of the text or at a non-word character, and so on to the
    end of the text. *)
Inductive word_runs : str -> list str -> Prop :=
| word_runs_end sep : all non_word_char sep -> word_runs sep []
| word_runs_token sep w rest tokens :
    all non_word_char sep -> all word_char w -> w <> [] ->
    blocked word_char rest -> word_runs rest tokens ->
    word_runs (sep ++ w ++ rest) (w :: tokens).

(** [\d{7}(v\d+)?]: the number of a legacy identifier, with its
    version. *)
Definition legacy_number : regex :=
  Seq (Rep digit 7 (Some 7)) version_suffix.

(** [re.fullmatch(r, s)] succeeds. *)
Definition re_fullmatch (r : regex) (s : string) : bool :=
  match match_re r (list_ascii_of_string s)
          (fun rest => match rest with [] => Some [] | _ :: _ => None end) with
  | Some _ => true
  | None => false
  end.

(** A client whose every request fails with the message [boom]. *)
Definition failing_client : arxiv_client :=
  fun _ => {| items := []; failure := Some (Error (Exception "boom")) |}.

(** A client interrupted from the keyboard while it is waited for. *)
Definition interrupted_client : arxiv_client :=
  fun _ => {| items := []; failure := Some (Interrupt "KeyboardInterrupt") |}.

(** A client that knows one paper. *)
Definition cat_paper : Result :=
  {| title := "On cats";
     authors := ["A. Author"; "B. Author"];
     published_ymd := "2023-03-17";
     summary := "A study of the Cat.";
     entry_id := "http://arxiv.org/abs/2303.10130v1";
     primary_category := "cs.CL";
     pdf_url := "http://arxiv.org/pdf/2303.10130v1" |}.

Definition cat_client : arxiv_client :=
  fun _ => {| items := [cat_paper]; failure := None |}.

(** A client that finds nothing. *)
Definition empty_client : arxiv_client :=
  fun _ => {| items := []; failure := None |}.

(** ** The engine against the language of a pattern *)

Lemma within_pred hi n :
  may_take hi = true -> within (option_map pred hi) n -> within hi (S n).
Proof.
  destruct hi as [[|h]|]; simpl; intros; try discriminate; lia.
Qed.

Lemma within_0 hi : within hi 0.
Proof. destruct hi; simpl; lia. Qed.

Lemma within_S hi n :
  within hi (S n) -> may_take hi = true /\ within (option_map pred hi) n.
Proof.
  destruct hi as [[|h]|]; simpl; intros; split; auto; lia.
Qed.

Lemma give_back_some lo k s x :
  give_back lo k s = Some x -> lo = 0 /\ k s = Some x.
Proof. destruct lo; simpl; intros; [auto | discriminate]. Qed.

Lemma rep_greedy_sound p s : forall lo hi k x,
  rep_greedy p lo hi s k = Some x ->
  exists w rest, s = w ++ rest /\ Forall (fun c => p c = true) w /\
    lo <= List.length w /\ within hi (List.length w) /\ k rest = Some x.
Proof.
  induction s as [|c s IH]; intros lo hi k x H; simpl in H.
  - apply give_back_some in H as [-> H].
    exists [], []. repeat split; auto using within_0.
  - assert (Hstop : give_back lo k (c :: s) = Some x ->
      exists w rest, c :: s = w ++ rest /\ Forall (fun c => p c = true) w /\
        lo <= List.length w /\ within hi (List.length w) /\ k rest = Some x).
    { intros G. apply give_back_some in G as [-> G].
      exists [], (c :: s). repeat split; auto using within_0. }
    destruct (p c) eqn:Hp; simpl in H; [|auto].
    destruct (may_take hi) eqn:Hm; [|auto].
    destruct (rep_greedy p (pred lo) (option_map pred hi) s k) as [y|] eqn:Hr; [|auto].
    injection H as ->.
    apply IH in Hr as (w & rest & -> & Hw & Hlo & Hhi & Hk).
    exists (c :: w), rest. simpl. repeat split; auto using within_pred. lia.
Qed.

Lemma rep_greedy_complete p w : forall lo hi rest k,
  Forall (fun c => p c = true) w -> lo <= List.length w -> within hi (List.length w) ->
  (exists x, k rest = Some x) ->
  exists y, rep_greedy p lo hi (w ++ rest) k = Some y.
Proof.
  induction w as [|c w IH]; intros lo hi rest k Hw Hlo Hhi [x Hk]; simpl in *.
  - assert (lo = 0) by lia. subst lo.
    destruct rest as [|c r]; simpl; [eauto|].
    destruct (p c && may_take hi); [|eauto].
    destruct (rep_greedy p 0 (option_map pred hi) r k); eauto.
  - inversion Hw as [|? ? Hc Hw']; subst.
    apply within_S in Hhi as [Hm Hhi]. rewrite Hc, Hm. simpl.
    destruct (IH (pred lo) (option_map pred hi) rest k) as [y Hy]; eauto; [lia|].
    rewrite Hy. eauto.
Qed.

Lemma match_re_sound r : forall s k x,
  match_re r s k = Some x ->
  exists w rest, s = w ++ rest /\ Matches r w /\ k rest = Some x.
Proof.
  induction r as [p|p lo hi|r1 IH1 r2 IH2|r1 IH1 r2 IH2|r1 IH1]; intros s k x H; simpl in H.
  - destruct s as [|c s]; [discriminate|].
    destruct (p c) eqn:Hp; [|discriminate].
    exists [c], s. repeat split; auto. now constructor.
  - apply rep_greedy_sound in H as (w & rest & -> & Hw & Hlo & Hhi & Hk).
    exists w, rest. repeat split; auto. now constructor.
  - apply IH1 in H as (w1 & rest1 & -> & M1 & H).
    apply IH2 in H as (w2 & rest2 & -> & M2 & H).
    exists (w1 ++ w2), rest2. rewrite <- app_assoc. repeat split; auto.
    now constructor.
  - destruct (match_re r1 s k) as [y|] eqn:H1.
    + injection H as ->. apply IH1 in H1 as (w & rest & -> & M & Hk).
      exists w, rest. repeat split; auto. now apply MAltL.
    + apply IH2 in H as (w & rest & -> & M & Hk).
      exists w, rest. repeat split; auto. now apply MAltR.
  - destruct (match_re r1 s k) as [y|] eqn:H1.
    + injection H as ->. apply IH1 in H1 as (w & rest & -> & M & Hk).
      exists w, rest. repeat split; auto. now apply MOptSome.
    + exists [], s. repeat split; auto. apply MOptNone.
Qed.

Lemma match_re_complete r w :
  Matches r w -> forall rest k,
  (exists x, k rest = Some x) -> exists y, match_re r (w ++ rest) k = Some y.
Proof.
  induction 1 as [p c Hc|p lo hi w Hw Hlo Hhi|r1 r2 w1 w2 _ IH1 _ IH2
                 |r1 r2 w _ IH|r1 r2 w _ IH|r w _ IH|r]; intros rest k Hk; simpl.
  - rewrite Hc. exact Hk.
  - now apply rep_greedy_complete.
  - rewrite <- app_assoc. apply IH1. now apply IH2.
  - destruct (IH rest k Hk) as [y ->]. eauto.
  - destruct (match_re r1 (w ++ rest) k); eauto.
  - destruct (IH rest k Hk) as [y ->]. eauto.
  - destruct (match_re r rest k); eauto.
Qed.

Lemma firstn_matched (w rest : str) :
  firstn (List.length (w ++ rest) - List.length rest) (w ++ rest) = w.
Proof.
  rewrite length_app, Nat.add_sub.
  rewrite firstn_app, Nat.sub_diag, firstn_all. simpl. apply app_nil_r.
Qed.

Lemma re_search_eq r s :
  re_search r s =
  match match_re r s (@Some str) with
  | Some rest => Some (firstn (List.length s - List.length rest) s)
  | None =>
      match s with
      | [] => None
      | _ :: s' => re_search r s'
      end
  end.
Proof. destruct s; reflexivity. Qed.

(** A successful match at the first position decides the search. *)
Lemma re_search_here r s rest :
  match_re r s (@Some str) = Some rest ->
  re_search r s = Some (firstn (List.length s - List.length rest) s).
Proof. intros H. rewrite re_search_eq. now rewrite H. Qed.

(** What [re.search] returns is a word of the pattern found inside the
    subject. *)
Lemma re_search_sound r s : forall g,
  re_search r s = Some g ->
  Matches r g /\ exists before after, s = before ++ g ++ after.
Proof.
  induction s as [|c s IH]; intros g H; rewrite re_search_eq in H;
    destruct (match_re r _ (@Some str)) as [rest|] eqn:Hm; try discriminate.
  - apply match_re_sound in Hm as (w & rest' & E & M & Hk).
    injection Hk as ->. rewrite E, firstn_matched in H. injection H as <-.
    split; auto. exists [], rest. exact E.
  - apply match_re_sound in Hm as (w & rest' & E & M & Hk).
    injection Hk as ->. rewrite E, firstn_matched in H. injection H as <-.
    split; auto. exists [], rest. exact E.
  - apply IH in H as (M & before & after & ->).
    split; auto. exists (c :: before), after. reflexivity.
Qed.

(** A word of the pattern at the head of the subject makes the search
    succeed there, with some word of the pattern. *)
Lemma re_search_head r w rest :
  Matches r w ->
  exists w' rest', w ++ rest = w' ++ rest' /\ Matches r w' /\
    re_search r (w ++ rest) = Some w'.
Proof.
  intros M.
  destruct (match_re_complete M rest (@Some str)) as [y Hy]; [eauto|].
  pose proof (re_search_here _ _ Hy) as Hs.
  apply match_re_sound in Hy as (w' & rest' & E & M' & Hk).
  injection Hk as ->. rewrite E in Hs |- *. rewrite firstn_matched in Hs.
  exists w', y. auto.
Qed.

(** ** The shapes of an identifier *)

Lemma lit_eq a c : lit a c = true -> c = a.
Proof. unfold lit. intros H. apply Ascii.eqb_eq in H. auto. Qed.

Lemma digit_not_prefix_char c : digit c = true -> id_prefix_char c = false.
Proof.
  destruct c as [[] [] [] [] [] [] [] []]; vm_compute; intros; congruence.
Qed.

Lemma slash_not_prefix_char : id_prefix_char "/" = false.
Proof. reflexivity. Qed.

Lemma slash_not_digit : digit "/" = false.
Proof. reflexivity. Qed.

Ltac inv_matches :=
  repeat match goal with
  | H : Matches (Seq _ _) _ |- _ => inversion H; clear H; subst
  | H : Matches (Cls _) _ |- _ => inversion H; clear H; subst
  | H : Matches (Rep _ _ _) _ |- _ => inversion H; clear H; subst
  | H : lit _ _ = true |- _ => apply lit_eq in H; subst
  end.

Lemma version_suffix_inv v :
  Matches version_suffix v ->
  v = [] \/ exists d ds, v = "v"%char :: d :: ds /\ digit d = true /\ all digit ds.
Proof.
  unfold version_suffix. intros H.
  inversion H as [| | | | |r w M|]; subst; [|now left]. right.
  inv_matches. simpl.
  match goal with
  | W : Forall _ ?w, L : 1 <= List.length ?w |- _ =>
      destruct w as [|d ds]; [simpl in L; lia|]; inversion W; subst
  end.
  exists d, ds. auto.
Qed.

Lemma version_suffix_1_inv v :
  Matches version_suffix_1 v ->
  v = [] \/ exists d, v = ["v"%char; d] /\ digit d = true.
Proof.
  unfold version_suffix_1. intros H.
  inversion H as [| | | | |r w M|]; subst; [|now left]. right.
  inv_matches. simpl. eauto.
Qed.

(** [(v\d)?] is a special case of [(v\d+)?]. *)
Lemma version_suffix_1_incl v :
  Matches version_suffix_1 v -> Matches version_suffix v.
Proof.
  intros H. apply version_suffix_1_inv in H as [->|(d & -> & Hd)].
  - apply MOptNone.
  - apply MOptSome. apply (MSeq (w1 := ["v"%char]) (w2 := [d])).
    + now constructor.
    + constructor; simpl; auto.
Qed.

Lemma modern_id_inv g :
  Matches modern_id g ->
  exists d4 d v, g = d4 ++ "."%char :: d ++ v /\
    all digit d4 /\ List.length d4 = 4 /\
    all digit d /\ 4 <= List.length d <= 5 /\ Matches version_suffix v.
Proof.
  unfold modern_id, all. intros H. inv_matches.
  match goal with
  | |- context [?a ++ ["."%char] ++ ?b ++ ?v] => exists a, b, v
  end.
  simpl in *. repeat split; auto; lia.
Qed.

Lemma legacy_id_inv g :
  Matches legacy_id g ->
  exists pre d7 v, g = pre ++ "/"%char :: d7 ++ v /\
    all id_prefix_char pre /\ 1 <= List.length pre /\
    all digit d7 /\ List.length d7 = 7 /\ Matches version_suffix v.
Proof.
  unfold legacy_id, all. intros H. inv_matches.
  match goal with
  | |- context [?a ++ ["/"%char] ++ ?b ++ ?v] => exists a, b, v
  end.
  simpl in *. repeat split; auto; lia.
Qed.

Lemma core_modern_inv g :
  Matches core_modern g ->
  exists pre d4 d v, g = pre ++ d4 ++ "."%char :: d ++ v /\
    all id_prefix_char pre /\ all digit d4 /\ List.length d4 = 4 /\
    all digit d /\ 4 <= List.length d <= 5 /\ Matches version_suffix_1 v.
Proof.
  unfold core_modern, all. intros H. inv_matches.
  match goal with
  | |- context [?p ++ ?a ++ ["."%char] ++ ?b ++ ?v] => exists p, a, b, v
  end.
  simpl in *. repeat split; auto; lia.
Qed.

Lemma core_legacy_inv g :
  Matches core_legacy g ->
  exists pre d7 v, g = pre ++ "/"%char :: d7 ++ v /\
    all id_prefix_char pre /\ 1 <= List.length pre /\
    all digit d7 /\ List.length d7 = 7 /\ Matches version_suffix_1 v.
Proof.
  unfold core_legacy, all. intros H. inv_matches.
  match goal with
  | |- context [?a ++ ["/"%char] ++ ?b ++ ?v] => exists a, b, v
  end.
  simpl in *. repeat split; auto; lia.
Qed.

(** Words of the two shapes, built from their parts. *)
Lemma modern_id_intro d4 d v :
  all digit d4 -> List.length d4 = 4 -> all digit d -> 4 <= List.length d <= 5 ->
  Matches version_suffix v ->
  Matches modern_id (d4 ++ "."%char :: d ++ v).
Proof.
  intros H4 L4 Hd Ld Hv. unfold modern_id.
  apply MSeq; [constructor; simpl; auto; lia|].
  apply (MSeq (w1 := ["."%char])); [now constructor|].
  apply MSeq; [constructor; simpl; auto; lia|auto].
Qed.

Lemma legacy_id_intro pre d7 v :
  all id_prefix_char pre -> 1 <= List.length pre -> all digit d7 ->
  List.length d7 = 7 -> Matches version_suffix v ->
  Matches legacy_id (pre ++ "/"%char :: d7 ++ v).
Proof.
  intros Hp Lp Hd Ld Hv. unfold legacy_id.
  apply MSeq; [constructor; simpl; auto; lia|].
  apply (MSeq (w1 := ["/"%char])); [now constructor|].
  apply MSeq; [constructor; simpl; auto; lia|auto].
Qed.

Lemma core_modern_intro d4 d v :
  all digit d4 -> List.length d4 = 4 -> all digit d -> 4 <= List.length d <= 5 ->
  Matches version_suffix_1 v ->
  Matches core_modern (d4 ++ "."%char :: d ++ v).
Proof.
  intros H4 L4 Hd Ld Hv. unfold core_modern.
  apply (MSeq (w1 := [])); [constructor; simpl; auto; lia|].
  apply MSeq; [constructor; simpl; auto; lia|].
  apply (MSeq (w1 := ["."%char])); [now constructor|].
  apply MSeq; [constructor; simpl; auto; lia|auto].
Qed.

Lemma core_legacy_intro pre d7 v :
  all id_prefix_char pre -> 1 <= List.length pre -> all digit d7 ->
  List.length d7 = 7 -> Matches version_suffix_1 v ->
  Matches core_legacy (pre ++ "/"%char :: d7 ++ v).
Proof.
  intros Hp Lp Hd Ld Hv. unfold core_legacy.
  apply MSeq; [constructor; simpl; auto; lia|].
  apply (MSeq (w1 := ["/"%char])); [now constructor|].
  apply MSeq; [constructor; simpl; auto; lia|auto].
Qed.

Lemma cut_version_spec v :
  Matches version_suffix v ->
  Matches version_suffix_1 (cut_version v) /\
  exists rest, v = cut_version v ++ rest.
Proof.
  intros H. apply version_suffix_inv in H as [->|(d & ds & -> & Hd & _)]; simpl.
  - split; [apply MOptNone|]. exists []. reflexivity.
  - split; [|exists ds; reflexivity].
    apply MOptSome. apply (MSeq (w1 := ["v"%char]) (w2 := [d])); now constructor.
Qed.

(** Every word of the broad pattern starts with a word of the core
    pattern. *)
Lemma broad_has_core_prefix g :
  Matches broad_pattern g ->
  exists w rest, g = w ++ rest /\ Matches core_pattern w.
Proof.
  unfold broad_pattern, core_pattern. intros H.
  inversion H as [| | |r1 r2 w M|r1 r2 w M| |]; subst.
  - apply modern_id_inv in M as (d4 & d & v & -> & H4 & L4 & Hd & Ld & Hv).
    apply cut_version_spec in Hv as (Hv & rest & E).
    exists (d4 ++ "."%char :: d ++ cut_version v), rest. split.
    + rewrite E at 1. rewrite <- app_assoc. simpl. now rewrite <- app_assoc.
    + apply MAltL. now apply core_modern_intro.
  - apply legacy_id_inv in M as (pre & d7 & v & -> & Hp & Lp & Hd & Ld & Hv).
    apply cut_version_spec in Hv as (Hv & rest & E).
    exists (pre ++ "/"%char :: d7 ++ cut_version v), rest. split.
    + rewrite E at 1. rewrite <- app_assoc. simpl. now rewrite <- app_assoc.
    + apply MAltR. now apply core_legacy_intro.
Qed.

(** Two ways of cutting a word at its first character outside a class
    agree. *)
Lemma first_outside_unique p (a : str) : forall a' x x' r r',
  all p a -> all p a' -> p x = false -> p x' = false ->
  a ++ x :: r = a' ++ x' :: r' -> a = a' /\ x = x' /\ r = r'.
Proof.
  unfold all. induction a as [|c a IH]; intros [|c' a'] x x' r r' Ha Ha' Hx Hx' E;
    simpl in E; injection E as E1 E2; subst.
  - auto.
  - inversion Ha'; subst. congruence.
  - inversion Ha; subst. congruence.
  - inversion Ha; inversion Ha'; subst.
    destruct (IH a' x x' r r') as (-> & -> & ->); auto.
Qed.

Lemma Matches_alphabet r w : Matches r w -> all (alphabet r) w.
Proof.
  unfold all.
  induction 1; simpl; auto.
  - apply Forall_app. split; eapply Forall_impl; eauto; simpl; intros a ->; auto.
    apply orb_true_r.
  - eapply Forall_impl; eauto. simpl. intros a ->. auto.
  - eapply Forall_impl; eauto. simpl. intros a ->. apply orb_true_r.
Qed.

Lemma id_alphabet_clean c :
  alphabet modern_id c || alphabet legacy_id c = true ->
  is_space c = false /\ c <> ":"%char.
Proof.
  destruct c as [[] [] [] [] [] [] [] []]; vm_compute; intros; split; congruence.
Qed.

Lemma count_occ_outside p (w : str) x :
  all p w -> p x = false -> count_occ ascii_dec w x = 0.
Proof.
  unfold all. induction 1 as [|c w Hc _ IH]; intros Hx; simpl; auto.
  destruct (ascii_dec c x) as [->|]; [congruence|auto].
Qed.

Lemma count_occ_version v :
  Matches version_suffix v -> count_occ ascii_dec v "/"%char = 0.
Proof.
  intros H. apply version_suffix_inv in H as [->|(d & ds & -> & Hd & Hds)]; auto.
  simpl. destruct (ascii_dec d "/") as [->|]; [discriminate|].
  now apply count_occ_outside with (p := digit).
Qed.

Lemma modern_id_slashes g :
  Matches modern_id g -> count_occ ascii_dec g "/"%char = 0.
Proof.
  intros H. apply modern_id_inv in H as (d4 & d & v & -> & H4 & _ & Hd & _ & Hv).
  rewrite count_occ_app. simpl. rewrite count_occ_app.
  rewrite (count_occ_outside "/" H4), (count_occ_outside "/" Hd),
    (count_occ_version Hv); auto.
Qed.

Lemma legacy_id_slashes g :
  Matches legacy_id g -> count_occ ascii_dec g "/"%char = 1.
Proof.
  intros H. apply legacy_id_inv in H as (pre & d7 & v & -> & Hp & _ & Hd & _ & Hv).
  rewrite count_occ_app. simpl. rewrite count_occ_app.
  rewrite (count_occ_outside "/" Hp), (count_occ_outside "/" Hd),
    (count_occ_version Hv); auto.
Qed.

(** A word of the core pattern that starts a word of the broad pattern
    has one of the two shapes of an identifier. *)
Lemma core_prefix_is_id g r rest :
  Matches broad_pattern g -> g = r ++ rest -> Matches core_pattern r ->
  Matches modern_id r \/ Matches legacy_id r.
Proof.
  unfold broad_pattern, core_pattern. intros Hg E Hr.
  inversion Hr as [| | |r1 r2 w M|r1 r2 w M| |]; subst.
  - left.
    apply core_modern_inv in M as (pre & d4 & d & v & -> & Hp & H4 & L4 & Hd & Ld & Hv).
    assert (pre = []) as ->.
    { destruct d4 as [|x d4]; [discriminate|]. inversion H4 as [|? ? Hx _]; subst.
      inversion Hg as [| | |? ? ? G|? ? ? G| |]; subst.
      - apply modern_id_inv in G as (e4 & e & u & E & G4 & K4 & _).
        destruct e4 as [|y e4]; [discriminate|]. inversion G4 as [|? ? Hy _]; subst.
        destruct pre as [|c pre]; auto. inversion Hp as [|? ? Hc _]; subst.
        simpl in E. injection E as -> _.
        apply digit_not_prefix_char in Hy. congruence.
      - apply legacy_id_inv in G as (q & e7 & u & E & Hq & _).
        repeat rewrite <- app_assoc in E. simpl in E.
        apply (first_outside_unique (p := id_prefix_char)) in E as (_ & -> & _);
          auto using slash_not_prefix_char, digit_not_prefix_char.
        discriminate. }
    simpl. apply modern_id_intro; auto using version_suffix_1_incl.
  - right.
    apply core_legacy_inv in M as (pre & d7 & v & -> & Hp & Lp & Hd & Ld & Hv).
    apply legacy_id_intro; auto using version_suffix_1_incl.
Qed.

(** On a word of the broad pattern the core pattern is found at the
    first position. *)
Lemma core_search_succeeds g :
  Matches broad_pattern g ->
  exists r rest, g = r ++ rest /\ Matches core_pattern r /\
    re_search core_pattern g = Some r.
Proof.
  intros Hg. apply broad_has_core_prefix in Hg as (w & rest & -> & Hw).
  destruct (re_search_head rest Hw) as (w' & rest' & E & Hw' & Hs).
  exists w', rest'. auto.
Qed.

Lemma extract_inv id_or_url arxiv_id :
  _extract_arxiv_id id_or_url = Some arxiv_id ->
  exists g rest,
    re_search broad_pattern (list_ascii_of_string id_or_url) = Some g /\
    Matches broad_pattern g /\
    g = list_ascii_of_string arxiv_id ++ rest /\
    Matches core_pattern (list_ascii_of_string arxiv_id) /\
    re_search core_pattern g = Some (list_ascii_of_string arxiv_id).
Proof.
  unfold _extract_arxiv_id. intros H.
  destruct (re_search broad_pattern _) as [g|] eqn:Hb; [|discriminate].
  pose proof (re_search_sound _ _ Hb) as [Hg _].
  destruct (core_search_succeeds Hg) as (r & rest & E & Hr & Hs).
  rewrite Hs in H. injection H as <-.
  rewrite list_ascii_of_string_of_list_ascii.
  exists g, rest. auto.
Qed.

Lemma re_fullmatch_sound r s : re_fullmatch r s = true -> fullmatch r s.
Proof.
  unfold re_fullmatch, fullmatch. intros H.
  destruct (match_re r _ _) as [x|] eqn:Hm; [|discriminate].
  apply match_re_sound in Hm as (w & rest & E & M & Hk).
  destruct rest; [|discriminate]. rewrite app_nil_r in E. now rewrite E.
Qed.

Lemma id_nonempty r :
  Matches modern_id r \/ Matches legacy_id r -> r <> [].
Proof.
  intros [H|H] ->.
  - apply modern_id_inv in H as (d4 & d & v & E & _ & L & _).
    destruct d4; discriminate.
  - apply legacy_id_inv in H as (pre & d7 & v & E & _ & L & _).
    destruct pre; [simpl in L; lia|discriminate].
Qed.

Lemma extract_is_id id_or_url arxiv_id :
  _extract_arxiv_id id_or_url = Some arxiv_id ->
  fullmatch modern_id arxiv_id \/ fullmatch legacy_id arxiv_id.
Proof.
  intros H. apply extract_inv in H as (g & rest & _ & Hg & E & Hr & _).
  eapply core_prefix_is_id; eauto.
Qed.

Lemma extract_truthy id_or_url arxiv_id :
  _extract_arxiv_id id_or_url = Some arxiv_id -> truthy arxiv_id = true.
Proof.
  intros H. apply extract_is_id in H. apply id_nonempty in H.
  destruct arxiv_id; [now elim H|reflexivity].
Qed.

(** ** What the greedy engine returns first *)

Lemma rep_greedy_blocked p hi s k :
  blocked p s -> rep_greedy p 0 hi s k = k s.
Proof.
  destruct s as [|c s]; simpl; intros H; auto. now rewrite H.
Qed.

Lemma rep_greedy_exact p w : forall n rest k,
  all p w -> List.length w = n ->
  rep_greedy p n (Some n) (w ++ rest) k = k rest.
Proof.
  unfold all. induction w as [|c w IH]; intros n rest k Hw Hn; simpl in Hn; subst n.
  - simpl. destruct rest as [|c r]; simpl; auto.
    now rewrite andb_false_r.
  - inversion Hw as [|? ? Hc Hw']; subst. simpl. rewrite Hc. simpl.
    rewrite IH; auto. now destruct (k rest).
Qed.

Lemma rep_greedy_longest p w : forall lo hi rest k x,
  all p w -> lo <= List.length w -> within hi (List.length w) ->
  blocked p rest -> k rest = Some x ->
  rep_greedy p lo hi (w ++ rest) k = Some x.
Proof.
  unfold all. induction w as [|c w IH]; intros lo hi rest k x Hw Hlo Hhi Hb Hk.
  - simpl in Hlo. assert (lo = 0) by lia. subst lo.
    simpl. now rewrite rep_greedy_blocked.
  - inversion Hw as [|? ? Hc Hw']; subst. simpl in Hlo, Hhi.
    apply within_S in Hhi as [Hm Hhi].
    simpl. rewrite Hc, Hm. simpl.
    rewrite (IH (pred lo) (option_map pred hi) rest k x); auto. lia.
Qed.

Lemma version_suffix_blocked v : Matches version_suffix v -> blocked digit v.
Proof.
  intros H. apply version_suffix_inv in H as [->|(d & ds & -> & _)]; reflexivity.
Qed.

Lemma match_version_suffix v :
  Matches version_suffix v -> match_re version_suffix v (@Some str) = Some [].
Proof.
  intros H. apply version_suffix_inv in H as [->|(d & ds & -> & Hd & Hds)].
  - reflexivity.
  - unfold version_suffix. cbn [match_re lit Ascii.eqb Bool.eqb].
    rewrite <- (app_nil_r (d :: ds)).
    rewrite (@rep_greedy_longest digit (d :: ds) 1 None [] (@Some str) []);
      simpl; auto; try lia. constructor; auto.
Qed.

Lemma match_version_suffix_1 v :
  Matches version_suffix v ->
  exists rest, v = cut_version v ++ rest /\
    match_re version_suffix_1 v (@Some str) = Some rest.
Proof.
  intros H. apply version_suffix_inv in H as [->|(d & ds & -> & Hd & Hds)].
  - exists []. split; reflexivity.
  - exists ds. split; [reflexivity|].
    unfold version_suffix_1. cbn [match_re lit Ascii.eqb Bool.eqb].
    now rewrite Hd.
Qed.

(** The body [\d{4}\.\d{4,5}] followed by a version pattern [vs], on a
    modern identifier: the engine takes all the digits and then what
    [vs] takes of the version. *)
Lemma match_modern_body vs d4 d v x :
  all digit d4 -> List.length d4 = 4 -> all digit d -> 4 <= List.length d <= 5 ->
  blocked digit v -> match_re vs v (@Some str) = Some x ->
  match_re
    (Seq (Rep digit 4 (Some 4)) (Seq (Cls (lit ".")) (Seq (Rep digit 4 (Some 5)) vs)))
    (d4 ++ "."%char :: d ++ v) (@Some str) = Some x.
Proof.
  intros H4 L4 Hd Ld Hb Hv.
  cbn [match_re]. rewrite rep_greedy_exact; auto.
  cbn [lit Ascii.eqb Bool.eqb].
  apply rep_greedy_longest; simpl; auto; lia.
Qed.

Lemma modern_starts_blocked d4 (tail : str) :
  all digit d4 -> List.length d4 = 4 -> blocked id_prefix_char (d4 ++ tail).
Proof.
  intros H4 L4. destruct d4 as [|c d4]; [discriminate|].
  inversion H4; subst. simpl. now apply digit_not_prefix_char.
Qed.

Lemma match_re_seq r1 r2 s k :
  match_re (Seq r1 r2) s k = match_re r1 s (fun s' => match_re r2 s' k).
Proof. reflexivity. Qed.

Lemma match_re_alt_left r1 r2 s k x :
  match_re r1 s k = Some x -> match_re (Alt r1 r2) s k = Some x.
Proof. intros H. simpl. now rewrite H. Qed.

Lemma match_broad_on_modern d4 d v :
  all digit d4 -> List.length d4 = 4 -> all digit d -> 4 <= List.length d <= 5 ->
  Matches version_suffix v ->
  match_re broad_pattern (d4 ++ "."%char :: d ++ v) (@Some str) = Some [].
Proof.
  intros H4 L4 Hd Ld Hv. apply match_re_alt_left.
  apply match_modern_body;
    auto using match_version_suffix, version_suffix_blocked.
Qed.

Lemma match_core_on_modern d4 d v rest :
  all digit d4 -> List.length d4 = 4 -> all digit d -> 4 <= List.length d <= 5 ->
  blocked digit v -> match_re version_suffix_1 v (@Some str) = Some rest ->
  match_re core_pattern (d4 ++ "."%char :: d ++ v) (@Some str) = Some rest.
Proof.
  intros H4 L4 Hd Ld Hb Hv. apply match_re_alt_left.
  unfold core_modern. rewrite match_re_seq.
  change (match_re (Rep ?p ?lo ?hi) ?s ?k) with (rep_greedy p lo hi s k).
  rewrite rep_greedy_blocked by now apply modern_starts_blocked.
  now apply match_modern_body.
Qed.

(** Both searches on a modern identifier. *)
Lemma searches_on_modern d4 d v :
  all digit d4 -> List.length d4 = 4 -> all digit d -> 4 <= List.length d <= 5 ->
  Matches version_suffix v ->
  re_search broad_pattern (d4 ++ "."%char :: d ++ v)
    = Some (d4 ++ "."%char :: d ++ v) /\
  re_search core_pattern (d4 ++ "."%char :: d ++ v)
    = Some (d4 ++ "."%char :: d ++ cut_version v).
Proof.
  intros H4 L4 Hd Ld Hv. pose proof (version_suffix_blocked Hv) as Hb. split.
  - rewrite (@re_search_here _ _ []) by now apply match_broad_on_modern.
    simpl List.length. now rewrite Nat.sub_0_r, firstn_all.
  - destruct (match_version_suffix_1 Hv) as (rest & E & Hm).
    rewrite (@re_search_here _ _ rest) by now apply match_core_on_modern.
    rewrite E at 1 2.
    replace (d4 ++ "."%char :: d ++ cut_version v ++ rest)
      with ((d4 ++ "."%char :: d ++ cut_version v) ++ rest).
    + now rewrite firstn_matched.
    + rewrite <- app_assoc. simpl. now rewrite <- app_assoc.
Qed.

(** On a modern identifier the extractor keeps the body and the first
    digit of the version. *)
Lemma extract_modern_id d4 d v :
  all digit d4 -> List.length d4 = 4 -> all digit d -> 4 <= List.length d <= 5 ->
  Matches version_suffix v ->
  _extract_arxiv_id (string_of_list_ascii (d4 ++ "."%char :: d ++ v))
  = Some (string_of_list_ascii (d4 ++ "."%char :: d ++ cut_version v)).
Proof.
  intros H4 L4 Hd Ld Hv.
  destruct (searches_on_modern H4 L4 Hd Ld Hv) as [Hbroad Hcore].
  unfold _extract_arxiv_id.
  now rewrite list_ascii_of_string_of_list_ascii, Hbroad, Hcore.
Qed.

(** A modern identifier without version, or with a version of one
    digit, is returned as it is. *)
Lemma extract_modern_id_1 s :
  fullmatch modern_id_1 s -> _extract_arxiv_id s = Some s.
Proof.
  unfold fullmatch, modern_id_1. intros H. inv_matches.
  match goal with
  | V : Matches version_suffix_1 ?v |- _ =>
      pose proof (version_suffix_1_incl V) as Hv;
      assert (Hc : cut_version v = v)
        by (apply version_suffix_1_inv in V as [->|(x & -> & _)]; reflexivity)
  end.
  rewrite <- (string_of_list_ascii_of_string s) at 1 2.
  match goal with
  | E : _ = list_ascii_of_string s |- _ => rewrite <- E
  end.
  simpl app. rewrite extract_modern_id; unfold all; simpl in *; auto; try lia.
  now rewrite Hc.
Qed.

Lemma match_re_alt_right r1 r2 s k :
  match_re r1 s k = None -> match_re (Alt r1 r2) s k = match_re r2 s k.
Proof. intros H. simpl. now rewrite H. Qed.

(** The body [[a-zA-Z.-]+/\d{7}] followed by a version pattern [vs], on
    a legacy identifier. *)
Lemma match_legacy_body vs pre d7 v x :
  all id_prefix_char pre -> 1 <= List.length pre ->
  all digit d7 -> List.length d7 = 7 ->
  match_re vs v (@Some str) = Some x ->
  match_re
    (Seq (Rep id_prefix_char 1 None)
       (Seq (Cls (lit "/")) (Seq (Rep digit 7 (Some 7)) vs)))
    (pre ++ "/"%char :: d7 ++ v) (@Some str) = Some x.
Proof.
  intros Hp Lp Hd Ld Hv. rewrite match_re_seq.
  change (match_re (Rep ?p ?lo ?hi) ?s ?k) with (rep_greedy p lo hi s k).
  apply rep_greedy_longest; simpl; auto.
  now rewrite rep_greedy_exact.
Qed.

Lemma modern_fails_on_legacy pre tail :
  all id_prefix_char pre -> 1 <= List.length pre ->
  match_re modern_id (pre ++ tail) (@Some str) = None.
Proof.
  intros Hp Lp. destruct pre as [|c pre]; [simpl in Lp; lia|].
  inversion Hp as [|? ? Hc _]; subst.
  assert (Hd : digit c = false).
  { destruct (digit c) eqn:D; auto. apply digit_not_prefix_char in D. congruence. }
  simpl. now rewrite Hd.
Qed.

Lemma core_modern_fails_on_legacy pre tail :
  all id_prefix_char pre ->
  match_re core_modern (pre ++ "/"%char :: tail) (@Some str) = None.
Proof.
  intros Hp. destruct (match_re core_modern _ _) as [x|] eqn:Hm; auto. exfalso.
  apply match_re_sound in Hm as (w & rest & E & M & _).
  apply core_modern_inv in M as (q & d4 & d & v & -> & Hq & H4 & L4 & _).
  destruct d4 as [|y d4]; [discriminate|]. inversion H4 as [|? ? Hy _]; subst.
  repeat rewrite <- app_assoc in E. simpl in E.
  apply (first_outside_unique (p := id_prefix_char)) in E as (_ & E & _);
    auto using slash_not_prefix_char, digit_not_prefix_char.
  subst y. discriminate.
Qed.

(** Both searches on a legacy identifier. *)
Lemma searches_on_legacy pre d7 v :
  all id_prefix_char pre -> 1 <= List.length pre ->
  all digit d7 -> List.length d7 = 7 -> Matches version_suffix v ->
  re_search broad_pattern (pre ++ "/"%char :: d7 ++ v)
    = Some (pre ++ "/"%char :: d7 ++ v) /\
  re_search core_pattern (pre ++ "/"%char :: d7 ++ v)
    = Some (pre ++ "/"%char :: d7 ++ cut_version v).
Proof.
  intros Hp Lp Hd Ld Hv. split.
  - rewrite (@re_search_here _ _ []).
    + simpl List.length. now rewrite Nat.sub_0_r, firstn_all.
    + unfold broad_pattern.
      rewrite match_re_alt_right by now apply modern_fails_on_legacy.
      apply match_legacy_body; auto using match_version_suffix.
  - destruct (match_version_suffix_1 Hv) as (rest & E & Hm).
    rewrite (@re_search_here _ _ rest).
    + rewrite E at 1 2.
      replace (pre ++ "/"%char :: d7 ++ cut_version v ++ rest)
        with ((pre ++ "/"%char :: d7 ++ cut_version v) ++ rest).
      * now rewrite firstn_matched.
      * rewrite <- app_assoc. simpl. now rewrite <- app_assoc.
    + unfold core_pattern.
      rewrite match_re_alt_right by now apply core_modern_fails_on_legacy.
      now apply match_legacy_body.
Qed.

(** On a legacy identifier the extractor keeps the category, the
    number and the first digit of the version. *)
Lemma extract_legacy_id pre d7 v :
  all id_prefix_char pre -> 1 <= List.length pre ->
  all digit d7 -> List.length d7 = 7 -> Matches version_suffix v ->
  _extract_arxiv_id (string_of_list_ascii (pre ++ "/"%char :: d7 ++ v))
  = Some (string_of_list_ascii (pre ++ "/"%char :: d7 ++ cut_version v)).
Proof.
  intros Hp Lp Hd Ld Hv.
  destruct (searches_on_legacy Hp Lp Hd Ld Hv) as [Hbroad Hcore].
  unfold _extract_arxiv_id.
  now rewrite list_ascii_of_string_of_list_ascii, Hbroad, Hcore.
Qed.

(** ** The identifier extractor *)

(** C1, at the input that breaks it: ["2303.10130v12"] is a modern
    identifier, and [_extract_arxiv_id] returns ["2303.10130v1"], the
    identifier with its version cut after the first digit. *)
Theorem extract_cuts_long_version :
  fullmatch modern_id "2303.10130v12" /\
  _extract_arxiv_id "2303.10130v12" = Some "2303.10130v1".
Proof.
  split; [apply re_fullmatch_sound|]; reflexivity.
Qed.

(** C4: a result of [_extract_arxiv_id] has the shape
    [\d{4}\.\d{4,5}(v\d+)?] or the shape [[a-zA-Z.-]+/\d{7}(v\d+)?].
    It is not empty, holds no white space and no colon (so no URL
    scheme), and holds a slash only where the second shape has its one
    slash. *)
Theorem extract_result_shape id_or_url arxiv_id :
  _extract_arxiv_id id_or_url = Some arxiv_id ->
  arxiv_id <> "" /\
  (fullmatch modern_id arxiv_id /\ occurrences "/" arxiv_id = 0 \/
   fullmatch legacy_id arxiv_id /\ occurrences "/" arxiv_id = 1) /\
  Forall (fun c => is_space c = false /\ c <> ":"%char)
    (list_ascii_of_string arxiv_id).
Proof.
  intros H. pose proof (extract_truthy _ H) as Ht.
  apply extract_is_id in H. unfold fullmatch, occurrences in *.
  split; [now intros ->|]. split.
  - destruct H as [H|H]; [left|right]; split; auto.
    + now apply modern_id_slashes.
    + now apply legacy_id_slashes.
  - destruct H as [H|H]; apply Matches_alphabet in H;
      (eapply Forall_impl; [|exact H]); intros c Hc; apply id_alphabet_clean;
      simpl in Hc |- *; rewrite Hc; auto using orb_true_r.
Qed.

Lemma extract_result_shape_witness :
  _extract_arxiv_id "see https://arxiv.org/abs/hep-th/0101001v23 now"
    = Some "hep-th/0101001v2" /\
  "hep-th/0101001v2" <> "" /\
  (fullmatch modern_id "hep-th/0101001v2" /\
     occurrences "/" "hep-th/0101001v2" = 0 \/
   fullmatch legacy_id "hep-th/0101001v2" /\
     occurrences "/" "hep-th/0101001v2" = 1) /\
  Forall (fun c => is_space c = false /\ c <> ":"%char)
    (list_ascii_of_string "hep-th/0101001v2").
Proof.
  split; [reflexivity|].
  apply (@extract_result_shape "see https://arxiv.org/abs/hep-th/0101001v23 now").
  reflexivity.
Defined.

(** C5: the three test vectors of the extractor. *)
Theorem extract_test_vectors :
  _extract_arxiv_id "hep-th/0101001" = Some "hep-th/0101001" /\
  _extract_arxiv_id "https://arxiv.org/abs/2303.10130v2" = Some "2303.10130v2" /\
  _extract_arxiv_id "no id here" = None.
Proof. repeat split; reflexivity. Qed.

(** C9: when the broad search finds a match, the core search on the
    text of that match finds one too, and [_extract_arxiv_id] returns
    it: the branch that would return the broad match is never taken. *)
Theorem fallback_unreachable id_or_url group0 :
  re_search broad_pattern (list_ascii_of_string id_or_url) = Some group0 ->
  exists core,
    re_search core_pattern group0 = Some core /\
    _extract_arxiv_id id_or_url = Some (string_of_list_ascii core).
Proof.
  intros Hb. pose proof (re_search_sound _ _ Hb) as [Hg _].
  destruct (core_search_succeeds Hg) as (r & rest & E & Hr & Hs).
  exists r. split; auto.
  unfold _extract_arxiv_id. now rewrite Hb, Hs.
Qed.

Lemma fallback_unreachable_witness :
  re_search broad_pattern
    (list_ascii_of_string "https://arxiv.org/abs/2303.10130v27")
    = Some (list_ascii_of_string "2303.10130v27") /\
  exists core,
    re_search core_pattern (list_ascii_of_string "2303.10130v27") = Some core /\
    _extract_arxiv_id "https://arxiv.org/abs/2303.10130v27"
      = Some (string_of_list_ascii core).
Proof.
  split; [reflexivity|].
  apply (@fallback_unreachable "https://arxiv.org/abs/2303.10130v27").
  reflexivity.
Defined.

(** ** The keyword test *)

Lemma count_found_from abstract_lower words : forall n,
  fold_left
    (fun found_keywords word =>
       if contains abstract_lower word then (found_keywords + 1)%Z
       else found_keywords)
    words n
  = (n + Z.of_nat (List.length (filter (contains abstract_lower) words)))%Z.
Proof.
  induction words as [|w ws IH]; intros n; simpl.
  - lia.
  - rewrite IH. destruct (contains abstract_lower w); simpl List.length; lia.
Qed.

(** The loop counts the tokens that occur in the abstract, each
    occurrence of a token in the list counting for one. *)
Lemma count_found_filter abstract_lower words :
  count_found abstract_lower words
  = Z.of_nat (List.length (filter (contains abstract_lower) words)).
Proof. unfold count_found. now rewrite count_found_from. Qed.

Lemma count_found_cons abstract_lower w ws :
  count_found abstract_lower (w :: ws)
  = ((if contains abstract_lower w then 1 else 0)
     + count_found abstract_lower ws)%Z.
Proof.
  rewrite !count_found_filter. simpl.
  destruct (contains abstract_lower w); simpl List.length; lia.
Qed.

Lemma gt_Q_iff a b : gt_Q a b = true <-> (a > b)%Q.
Proof.
  unfold gt_Q. rewrite Qgt_alt.
  destruct (a ?= b)%Q; split; congruence.
Qed.

Lemma more_than_half_iff abstract words :
  more_than_half (count_found (lower abstract) words) words = true <->
  (inject_Z (Z.of_nat (List.length (matched_tokens abstract words)))
   > inject_Z (Z.of_nat (List.length words)) / 2)%Q.
Proof.
  unfold more_than_half, half, matched_tokens.
  rewrite gt_Q_iff, count_found_filter. reflexivity.
Qed.

(** The same test without fractions. *)
Lemma more_than_half_nat abstract words :
  more_than_half (count_found (lower abstract) words) words = true <->
  List.length words < 2 * List.length (matched_tokens abstract words).
Proof.
  rewrite more_than_half_iff.
  unfold Qlt, Qdiv, Qmult, Qinv, inject_Z. simpl. lia.
Qed.

(** What [answer_paper_question] returns once the paper is fetched. *)
Lemma answer_of_fetched_paper client arxiv_id_or_url question arxiv_id paper sent :
  _extract_arxiv_id arxiv_id_or_url = Some arxiv_id ->
  next_or_None (client (Search_id_list [arxiv_id])) = Returns (Some paper) ->
  exists message,
    answer_paper_question client arxiv_id_or_url question sent
    = (Returns [ ("status", Str "success");
                 ("answer_type",
                  Str (classification (summary paper) (question_words question)));
                 ("message", Str message);
                 ("abstract", Str (summary paper));
                 ("title", Str (title paper)) ],
       sent ++ [Search_id_list [arxiv_id]]).
Proof.
  intros He Hn. pose proof (extract_truthy _ He) as Ht.
  unfold answer_paper_question, try_except, bind, results, lift, ret, classification.
  rewrite He, Ht. simpl. rewrite Hn.
  destruct (question_words question) as [|w ws]; [eauto|].
  destruct (more_than_half _ _); eauto.
Qed.

Lemma stop_words_filtered l :
  Forall (fun word => is_stop_word word = true) (filter truthy l) ->
  filter (fun word => truthy word && negb (is_stop_word word)) l = [].
Proof.
  induction l as [|w l IH]; simpl; intros H; auto.
  destruct (truthy w); simpl; auto.
  inversion H as [|? ? Hw Hl]; subst. rewrite Hw. simpl. auto.
Qed.

(** The test vectors of the keyword test. *)
Example keywords_neural_networks :
  question_words "neural networks" = ["neural"; "networks"] /\
  classification "Deep Neural Networks for vision." (question_words "neural networks")
  = "found_in_abstract".
Proof. split; reflexivity. Qed.

Example keywords_quantum_gravity :
  question_words "quantum gravity dark matter"
  = ["quantum"; "gravity"; "dark"; "matter"] /\
  classification "A quantum algorithm."
    (question_words "quantum gravity dark matter")
  = "not_found_in_abstract".
Proof. split; reflexivity. Qed.

Example keywords_gravitational_waves :
  question_words "What about gravitational waves?" = ["gravitational"; "waves"] /\
  classification "This paper studies gravitational waves."
    (question_words "What about gravitational waves?")
  = "found_in_abstract".
Proof. split; reflexivity. Qed.

(** Containment is not aware of word boundaries. *)
Example keywords_cat_in_category :
  classification "A category of models." (question_words "cat") = "found_in_abstract".
Proof. reflexivity. Qed.

(** [re.split] keeps the empty pieces at both ends. *)
Example re_split_pieces :
  re_split non_word_run "What about gravitational waves?"
  = ["What"; "about"; "gravitational"; "waves"; ""] /\
  re_split non_word_run " " = [""; ""] /\
  re_split non_word_run "" = [""] /\
  re_split non_word_run "a  b, c_d--" = ["a"; "b"; "c_d"; ""].
Proof. repeat split; reflexivity. Qed.

(** ** The answer operation *)

(** C6: when every non-empty token of the lower-cased question is a
    stop word, the answer is [not_enough_keywords]; the abstract only
    appears in the result as the field that carries it back. *)
Theorem all_stop_words_not_enough client arxiv_id_or_url question arxiv_id paper sent :
  _extract_arxiv_id arxiv_id_or_url = Some arxiv_id ->
  next_or_None (client (Search_id_list [arxiv_id])) = Returns (Some paper) ->
  Forall (fun word => is_stop_word word = true)
    (filter truthy (re_split non_word_run (lower question))) ->
  answer_paper_question client arxiv_id_or_url question sent
  = (Returns [ ("status", Str "success");
               ("answer_type", Str "not_enough_keywords");
               ("message",
                Str "Your question did not contain enough significant keywords after removing common words. Please try a more specific question.");
               ("abstract", Str (summary paper));
               ("title", Str (title paper)) ],
     sent ++ [Search_id_list [arxiv_id]]).
Proof.
  intros He Hn Hs. pose proof (extract_truthy _ He) as Ht.
  apply stop_words_filtered in Hs.
  unfold answer_paper_question, try_except, bind, results, lift, ret.
  rewrite He, Ht. simpl. rewrite Hn.
  unfold question_words. rewrite Hs. reflexivity.
Qed.

Lemma all_stop_words_not_enough_witness :
  answer_paper_question cat_client "2303.10130" "the a an" []
  = (Returns [ ("status", Str "success");
               ("answer_type", Str "not_enough_keywords");
               ("message",
                Str "Your question did not contain enough significant keywords after removing common words. Please try a more specific question.");
               ("abstract", Str (summary cat_paper));
               ("title", Str (title cat_paper)) ],
     [] ++ [Search_id_list ["2303.10130"]]).
Proof.
  apply (@all_stop_words_not_enough cat_client "2303.10130" "the a an"
           "2303.10130" cat_paper []).
  - reflexivity.
  - reflexivity.
  - vm_compute. repeat constructor.
Defined.

(** C10: the keyword test counts a token as often as it occurs in the
    question.  Each element of the token list adds one to the total
    and, if it occurs in the abstract, one to the number found, whether
    or not the same token comes again later.  With the question
    ["Cat cat dog"] and an abstract that mentions only the cat, the
    answer is [found_in_abstract], while the distinct tokens alone
    would give [not_found_in_abstract]. *)
Theorem tokens_counted_with_multiplicity :
  (forall abstract_lower w ws,
     count_found abstract_lower (w :: ws)
     = ((if contains abstract_lower w then 1 else 0)
        + count_found abstract_lower ws)%Z /\
     List.length (w :: ws) = S (List.length ws)) /\
  exists question,
    let words := question_words question in
    words = ["cat"; "cat"; "dog"] /\ ~ NoDup words /\
    (exists d,
       fst (answer_paper_question cat_client "2303.10130" question []) = Returns d /\
       get d "answer_type" = Some (Str "found_in_abstract")) /\
    classification (summary cat_paper) (nodup string_dec words)
    = "not_found_in_abstract".
Proof.
  split.
  - intros. split; [apply count_found_cons|reflexivity].
  - exists "Cat cat dog". simpl. split; [reflexivity|]. split.
    + intros H. assert (E : question_words "Cat cat dog" = ["cat"; "cat"; "dog"])
        by reflexivity.
      rewrite E in H. inversion H as [|? ? Hin _]; subst. apply Hin. now left.
    + split; [|reflexivity]. eexists. split; reflexivity.
Qed.

(** ** Errors *)

(** C7: when the extractor finds no identifier, the summary and the
    answer operations return the error "Invalid arXiv ID or URL
    format." and send no request to the client. *)
Theorem invalid_id_short_circuits client arxiv_id_or_url question sent :
  _extract_arxiv_id arxiv_id_or_url = None ->
  summarize_arxiv_paper client arxiv_id_or_url sent
  = (Returns [ ("status", Str "error");
               ("message", Str "Invalid arXiv ID or URL format.") ], sent) /\
  answer_paper_question client arxiv_id_or_url question sent
  = (Returns [ ("status", Str "error");
               ("message", Str "Invalid arXiv ID or URL format.") ], sent).
Proof.
  intros He.
  unfold summarize_arxiv_paper, answer_paper_question, try_except, ret.
  rewrite He. split; reflexivity.
Qed.

Lemma invalid_id_short_circuits_witness :
  summarize_arxiv_paper cat_client "no id here" []
  = (Returns [ ("status", Str "error");
               ("message", Str "Invalid arXiv ID or URL format.") ], []) /\
  answer_paper_question cat_client "no id here" "Which cat?" []
  = (Returns [ ("status", Str "error");
               ("message", Str "Invalid arXiv ID or URL format.") ], []).
Proof.
  apply (@invalid_id_short_circuits cat_client "no id here" "Which cat?" []).
  reflexivity.
Defined.

(** C8: when the client yields no result and does not fail, the search
    returns a success with an empty list of papers and a message. *)
Theorem search_without_results client query sent :
  items (client (Search_query query 5 Relevance)) = [] ->
  failure (client (Search_query query 5 Relevance)) = None ->
  search_arxiv_papers client query sent
  = (Returns [ ("status", Str "success");
               ("papers", Arr []);
               ("message", Str "No papers found matching your query.") ],
     sent ++ [Search_query query 5 Relevance]).
Proof.
  intros Hi Hf.
  unfold search_arxiv_papers, try_except, bind, results, lift, ret.
  rewrite Hi, Hf. reflexivity.
Qed.

Lemma search_without_results_witness :
  search_arxiv_papers empty_client "zzzz" []
  = (Returns [ ("status", Str "success");
               ("papers", Arr []);
               ("message", Str "No papers found matching your query.") ],
     [] ++ [Search_query "zzzz" 5 Relevance]).
Proof.
  apply (@search_without_results empty_client "zzzz" []); reflexivity.
Defined.

Lemma for_each_failure details e rest : forall papers_list,
  for_each details rest (Some e) papers_list = Raises e.
Proof. induction rest; intros; simpl; auto. Qed.

(** C3 as stated fails for the answer operation: the client raises
    with the message "boom", and the message of the error is
    "An error occurred: boom". *)
Lemma answer_error_is_prefixed :
  next_or_None (failing_client (Search_id_list ["2303.10130"]))
    = Raises (Error (Exception "boom")) /\
  fst (answer_paper_question failing_client "2303.10130" "Which cat?" [])
    = Returns [ ("status", Str "error");
                ("message", Str "An error occurred: boom") ] /\
  Str "An error occurred: boom" <> Str (str_of_exn (Exception "boom")).
Proof.
  repeat split; try reflexivity. discriminate.
Qed.

(** C3, amended: when the client raises, the search and the summary
    operations return an error whose message is the text of the
    exception, and the answer operation returns an error whose message
    is "An error occurred: " followed by that text. *)
Theorem client_failure_messages client :
  (forall query e sent,
     failure (client (Search_query query 5 Relevance)) = Some (Error e) ->
     fst (search_arxiv_papers client query sent)
     = Returns [ ("status", Str "error"); ("message", Str (str_of_exn e)) ]) /\
  (forall arxiv_id_or_url arxiv_id e sent,
     _extract_arxiv_id arxiv_id_or_url = Some arxiv_id ->
     next_or_None (client (Search_id_list [arxiv_id])) = Raises (Error e) ->
     fst (summarize_arxiv_paper client arxiv_id_or_url sent)
     = Returns [ ("status", Str "error"); ("message", Str (str_of_exn e)) ]) /\
  (forall arxiv_id_or_url question arxiv_id e sent,
     _extract_arxiv_id arxiv_id_or_url = Some arxiv_id ->
     next_or_None (client (Search_id_list [arxiv_id])) = Raises (Error e) ->
     fst (answer_paper_question client arxiv_id_or_url question sent)
     = Returns [ ("status", Str "error");
                 ("message", Str ("An error occurred: " ++ str_of_exn e)%string) ]).
Proof.
  repeat split.
  - intros query e sent Hf.
    unfold search_arxiv_papers, try_except, bind, results, lift, ret.
    rewrite Hf, for_each_failure. reflexivity.
  - intros s arxiv_id e sent He Hn. pose proof (extract_truthy _ He) as Ht.
    unfold summarize_arxiv_paper, try_except, bind, results, lift, ret.
    rewrite He, Ht. simpl. rewrite Hn. reflexivity.
  - intros s question arxiv_id e sent He Hn. pose proof (extract_truthy _ He) as Ht.
    unfold answer_paper_question, try_except, bind, results, lift, ret.
    rewrite He, Ht. simpl. rewrite Hn. reflexivity.
Qed.

Lemma client_failure_messages_witness :
  fst (search_arxiv_papers failing_client "cats" [])
    = Returns [ ("status", Str "error");
                ("message", Str (str_of_exn (Exception "boom"))) ] /\
  fst (summarize_arxiv_paper failing_client "2303.10130" [])
    = Returns [ ("status", Str "error");
                ("message", Str (str_of_exn (Exception "boom"))) ] /\
  fst (answer_paper_question failing_client "2303.10130" "Which cat?" [])
    = Returns [ ("status", Str "error");
                ("message",
                 Str ("An error occurred: " ++ str_of_exn (Exception "boom"))%string) ].
Proof.
  destruct (client_failure_messages failing_client) as (Hsearch & Hsummary & Hanswer).
  split; [|split].
  - apply Hsearch. reflexivity.
  - apply Hsummary with (arxiv_id := "2303.10130"); reflexivity.
  - apply Hanswer with (arxiv_id := "2303.10130"); reflexivity.
Defined.

(** * Further properties of the code *)

(** ** The extractor and its input *)

Lemma list_ascii_of_string_app (a b : string) :
  list_ascii_of_string (a ++ b)%string
  = list_ascii_of_string a ++ list_ascii_of_string b.
Proof. induction a as [|c a IH]; simpl; [reflexivity|now rewrite IH]. Qed.

Lemma string_of_list_ascii_app (a b : str) :
  string_of_list_ascii (a ++ b)
  = (string_of_list_ascii a ++ string_of_list_ascii b)%string.
Proof. induction a as [|c a IH]; simpl; [reflexivity|now rewrite IH]. Qed.

Lemma list_ascii_of_string_inj (a b : string) :
  list_ascii_of_string a = list_ascii_of_string b -> a = b.
Proof.
  intros H. rewrite <- (string_of_list_ascii_of_string a),
    <- (string_of_list_ascii_of_string b). now rewrite H.
Qed.

(** A word of the pattern anywhere in the subject makes the search
    succeed. *)
Lemma re_search_complete r g after : forall before,
  Matches r g -> exists g', re_search r (before ++ g ++ after) = Some g'.
Proof.
  induction before as [|c before IH]; intros M.
  - destruct (re_search_head after M) as (w & rest & _ & _ & Hs). eauto.
  - rewrite re_search_eq. simpl app.
    destruct (match_re r (c :: before ++ g ++ after) (@Some str)); eauto.
Qed.

(** A match of the broad search always gives a result. *)
Lemma fallback_unreachable_aux id_or_url g :
  re_search broad_pattern (list_ascii_of_string id_or_url) = Some g ->
  exists r, _extract_arxiv_id id_or_url = Some r.
Proof.
  intros Hb. unfold _extract_arxiv_id. rewrite Hb.
  destruct (re_search core_pattern g); eauto.
Qed.

(** The identifier returned is a piece of the input: the input is some
    text, the identifier, and some more text. *)
Theorem extract_is_substring id_or_url arxiv_id :
  _extract_arxiv_id id_or_url = Some arxiv_id ->
  exists before after, id_or_url = (before ++ arxiv_id ++ after)%string.
Proof.
  intros H. apply extract_inv in H as (g & rest & Hb & _ & E & _).
  apply re_search_sound in Hb as (_ & before & after & Es).
  exists (string_of_list_ascii before), (string_of_list_ascii (rest ++ after)).
  apply list_ascii_of_string_inj.
  rewrite !list_ascii_of_string_app, !list_ascii_of_string_of_list_ascii.
  rewrite Es, E. now rewrite <- app_assoc.
Qed.

Lemma extract_is_substring_witness :
  exists before after,
    "see https://arxiv.org/abs/2303.10130v2, page 3"
    = (before ++ "2303.10130v2" ++ after)%string.
Proof.
  apply (@extract_is_substring
           "see https://arxiv.org/abs/2303.10130v2, page 3" "2303.10130v2").
  reflexivity.
Defined.

(** The extractor finds nothing exactly when no piece of the input is a
    word of the broad pattern. *)
Theorem extract_none_iff id_or_url :
  _extract_arxiv_id id_or_url = None <->
  forall before g after,
    list_ascii_of_string id_or_url = before ++ g ++ after ->
    ~ Matches broad_pattern g.
Proof.
  split.
  - intros H before g after E M.
    destruct (re_search_complete after before M) as [g' Hs].
    rewrite <- E in Hs.
    destruct (fallback_unreachable_aux id_or_url Hs) as [r Hr]. congruence.
  - intros H. destruct (_extract_arxiv_id id_or_url) as [r|] eqn:He; auto.
    apply extract_inv in He as (g & rest & Hb & Hg & _).
    apply re_search_sound in Hb as (_ & before & after & Es).
    elim (H before g after Es Hg).
Qed.

Lemma cut_version_fixed v :
  Matches version_suffix_1 v -> cut_version v = v.
Proof.
  intros H. apply version_suffix_1_inv in H as [->|(x & -> & _)]; reflexivity.
Qed.

Lemma modern_id_1_intro d4 d v :
  all digit d4 -> List.length d4 = 4 -> all digit d -> 4 <= List.length d <= 5 ->
  Matches version_suffix_1 v ->
  Matches modern_id_1 (d4 ++ "."%char :: d ++ v).
Proof.
  intros H4 L4 Hd Ld Hv. unfold modern_id_1.
  apply MSeq; [constructor; simpl; auto; lia|].
  apply (MSeq (w1 := ["."%char])); [now constructor|].
  apply MSeq; [constructor; simpl; auto; lia|auto].
Qed.

(** A word of the core pattern that starts a word of the broad pattern
    is an identifier whose version has at most one digit. *)
Lemma core_prefix_is_id_1 g r rest :
  Matches broad_pattern g -> g = r ++ rest -> Matches core_pattern r ->
  Matches modern_id_1 r \/ Matches core_legacy r.
Proof.
  unfold broad_pattern, core_pattern. intros Hg E Hr.
  inversion Hr as [| | |r1 r2 w M|r1 r2 w M| |]; subst; [left|now right].
  apply core_modern_inv in M as (pre & d4 & d & v & -> & Hp & H4 & L4 & Hd & Ld & Hv).
  assert (pre = []) as ->.
  { destruct d4 as [|x d4]; [discriminate|]. inversion H4 as [|? ? Hx _]; subst.
    inversion Hg as [| | |? ? ? G|? ? ? G| |]; subst.
    - apply modern_id_inv in G as (e4 & e & u & E & G4 & K4 & _).
      destruct e4 as [|y e4]; [discriminate|]. inversion G4 as [|? ? Hy _]; subst.
      destruct pre as [|c pre]; auto. inversion Hp as [|? ? Hc _]; subst.
      simpl in E. injection E as -> _.
      apply digit_not_prefix_char in Hy. congruence.
    - apply legacy_id_inv in G as (q & e7 & u & E & Hq & _).
      repeat rewrite <- app_assoc in E. simpl in E.
      apply (first_outside_unique (p := id_prefix_char)) in E as (_ & -> & _);
        auto using slash_not_prefix_char, digit_not_prefix_char.
      discriminate. }
  simpl. now apply modern_id_1_intro.
Qed.

Lemma extract_is_id_1 id_or_url arxiv_id :
  _extract_arxiv_id id_or_url = Some arxiv_id ->
  fullmatch modern_id_1 arxiv_id \/ fullmatch core_legacy arxiv_id.
Proof.
  intros H. apply extract_inv in H as (g & rest & _ & Hg & E & Hr & _).
  eapply core_prefix_is_id_1; eauto.
Qed.

(** A legacy identifier without version, or with a version of one
    digit, is returned as it is. *)
Lemma extract_legacy_id_1 s :
  fullmatch core_legacy s -> _extract_arxiv_id s = Some s.
Proof.
  unfold fullmatch. intros H.
  apply core_legacy_inv in H as (pre & d7 & v & E & Hp & Lp & Hd & Ld & Hv).
  rewrite <- (string_of_list_ascii_of_string s) at 1 2. rewrite E.
  rewrite extract_legacy_id; auto using version_suffix_1_incl.
  now rewrite (cut_version_fixed Hv).
Qed.

(** The extractor is idempotent: an identifier it has returned is
    returned unchanged when it is given back as input. *)
Theorem extract_idempotent id_or_url arxiv_id :
  _extract_arxiv_id id_or_url = Some arxiv_id ->
  _extract_arxiv_id arxiv_id = Some arxiv_id.
Proof.
  intros H. apply extract_is_id_1 in H as [H|H].
  - now apply extract_modern_id_1.
  - now apply extract_legacy_id_1.
Qed.

Lemma extract_idempotent_witness :
  _extract_arxiv_id "hep-th/0101001v2" = Some "hep-th/0101001v2".
Proof.
  apply (@extract_idempotent "https://arxiv.org/abs/hep-th/0101001v23").
  reflexivity.
Defined.

Lemma length_string_of_list_ascii (l : str) :
  String.length (string_of_list_ascii l) = List.length l.
Proof. induction l as [|c l IH]; simpl; [reflexivity|now rewrite IH]. Qed.

(** The version of an identifier, as the extractor returns it, has at
    most one digit: the result has the shape [\d{4}\.\d{4,5}(v\d)?] or
    the shape [[a-zA-Z.-]+/\d{7}(v\d)?], and is at most 12 characters
    long in the first case. *)
Theorem extract_version_one_digit id_or_url arxiv_id :
  _extract_arxiv_id id_or_url = Some arxiv_id ->
  fullmatch modern_id_1 arxiv_id /\ 9 <= String.length arxiv_id <= 12 \/
  fullmatch core_legacy arxiv_id /\ 9 <= String.length arxiv_id.
Proof.
  intros H. apply extract_is_id_1 in H as [H|H]; [left|right]; split; auto.
  - unfold fullmatch in H. pose proof H as M. unfold modern_id_1 in M.
    inv_matches.
    rewrite <- (string_of_list_ascii_of_string arxiv_id).
    match goal with E : _ = list_ascii_of_string arxiv_id |- _ => rewrite <- E end.
    rewrite length_string_of_list_ascii.
    match goal with V : Matches version_suffix_1 ?v |- _ =>
      apply version_suffix_1_inv in V as [->|(x & -> & _)] end;
      rewrite !length_app; simpl in *; lia.
  - unfold fullmatch in H.
    apply core_legacy_inv in H as (pre & d7 & v & E & _ & Lp & _ & Ld & _).
    rewrite <- (string_of_list_ascii_of_string arxiv_id), E.
    rewrite length_string_of_list_ascii, length_app. simpl.
    rewrite length_app. lia.
Qed.

Lemma extract_version_one_digit_witness :
  fullmatch modern_id_1 "2303.10130v1" /\ 9 <= String.length "2303.10130v1" <= 12 \/
  fullmatch core_legacy "2303.10130v1" /\ 9 <= String.length "2303.10130v1".
Proof.
  apply (@extract_version_one_digit "arXiv:2303.10130v12 [cs.CL]").
  reflexivity.
Defined.

(** The inputs the extractor returns unchanged are exactly the
    identifiers of the two shapes whose version, if any, has one
    digit. *)
Theorem extract_fixed_points s :
  _extract_arxiv_id s = Some s <->
  fullmatch modern_id_1 s \/ fullmatch core_legacy s.
Proof.
  split.
  - apply extract_is_id_1.
  - intros [H|H]; [now apply extract_modern_id_1|now apply extract_legacy_id_1].
Qed.

Lemma cut_version_split v :
  Matches version_suffix v ->
  exists rest, v = cut_version v ++ rest /\ all digit rest /\
    Matches version_suffix_1 (cut_version v).
Proof.
  intros H. destruct (cut_version_spec H) as [H1 _].
  apply version_suffix_inv in H as [->|(d & ds & -> & Hd & Hds)].
  - exists []. repeat split; auto. constructor.
  - exists ds. repeat split; auto.
Qed.

(** On a modern identifier with a version of any length, the extractor
    returns the identifier up to the first digit of the version and
    drops the digits that follow. *)
Theorem extract_modern_any_version s :
  fullmatch modern_id s ->
  exists kept dropped,
    s = (kept ++ dropped)%string /\
    fullmatch modern_id_1 kept /\
    all digit (list_ascii_of_string dropped) /\
    _extract_arxiv_id s = Some kept.
Proof.
  unfold fullmatch. intros H.
  apply modern_id_inv in H as (d4 & d & v & E & H4 & L4 & Hd & Ld & Hv).
  destruct (cut_version_split Hv) as (rest & Ev & Hrest & H1).
  exists (string_of_list_ascii (d4 ++ "."%char :: d ++ cut_version v)),
    (string_of_list_ascii rest).
  rewrite !list_ascii_of_string_of_list_ascii. repeat split; auto.
  - apply list_ascii_of_string_inj.
    rewrite list_ascii_of_string_app, !list_ascii_of_string_of_list_ascii, E.
    rewrite Ev at 1. rewrite <- app_assoc. simpl. now rewrite <- app_assoc.
  - now apply modern_id_1_intro.
  - rewrite <- (string_of_list_ascii_of_string s), E.
    now apply extract_modern_id.
Qed.

Lemma extract_modern_any_version_witness :
  exists kept dropped,
    "2303.10130v123" = (kept ++ dropped)%string /\
    fullmatch modern_id_1 kept /\
    all digit (list_ascii_of_string dropped) /\
    _extract_arxiv_id "2303.10130v123" = Some kept.
Proof.
  apply (@extract_modern_any_version "2303.10130v123").
  apply re_fullmatch_sound. reflexivity.
Defined.

(** The same on a legacy identifier. *)
Theorem extract_legacy_any_version s :
  fullmatch legacy_id s ->
  exists kept dropped,
    s = (kept ++ dropped)%string /\
    fullmatch core_legacy kept /\
    all digit (list_ascii_of_string dropped) /\
    _extract_arxiv_id s = Some kept.
Proof.
  unfold fullmatch. intros H.
  apply legacy_id_inv in H as (pre & d7 & v & E & Hp & Lp & Hd & Ld & Hv).
  destruct (cut_version_split Hv) as (rest & Ev & Hrest & H1).
  exists (string_of_list_ascii (pre ++ "/"%char :: d7 ++ cut_version v)),
    (string_of_list_ascii rest).
  rewrite !list_ascii_of_string_of_list_ascii. repeat split; auto.
  - apply list_ascii_of_string_inj.
    rewrite list_ascii_of_string_app, !list_ascii_of_string_of_list_ascii, E.
    rewrite Ev at 1. rewrite <- app_assoc. simpl. now rewrite <- app_assoc.
  - now apply core_legacy_intro.
  - rewrite <- (string_of_list_ascii_of_string s), E.
    now apply extract_legacy_id.
Qed.

Lemma extract_legacy_any_version_witness :
  exists kept dropped,
    "math.GT/0309136v10" = (kept ++ dropped)%string /\
    fullmatch core_legacy kept /\
    all digit (list_ascii_of_string dropped) /\
    _extract_arxiv_id "math.GT/0309136v10" = Some kept.
Proof.
  apply (@extract_legacy_any_version "math.GT/0309136v10").
  apply re_fullmatch_sound. reflexivity.
Defined.

(** ** Identifiers inside a longer text *)

Lemma modern_id_fifth id suffix e7 tail :
  Matches modern_id id -> all digit e7 -> List.length e7 = 7 ->
  id ++ suffix <> e7 ++ tail.
Proof.
  intros M H7 L7 E.
  apply modern_id_inv in M as (d4 & d & v & -> & _ & L4 & _).
  destruct d4 as [|a1 [|a2 [|a3 [|a4 [|]]]]]; try discriminate.
  destruct e7 as [|b1 [|b2 [|b3 [|b4 [|b5 e7]]]]]; try discriminate.
  simpl in E. injection E as _ _ _ _ E _.
  unfold all in H7.
  repeat (inversion H7 as [|? ? ? H7']; subst; clear H7; rename H7' into H7).
  discriminate.
Qed.

Lemma modern_id_starts_with_digit id :
  Matches modern_id id -> exists y id', id = y :: id' /\ digit y = true.
Proof.
  intros M. apply modern_id_inv in M as (d4 & d & v & -> & H4 & L4 & _).
  destruct d4 as [|y d4]; [discriminate|]. inversion H4; subst.
  exists y, (d4 ++ "."%char :: d ++ v). auto.
Qed.

(** No match of the broad pattern starts inside a text without digits
    that is followed by a modern identifier. *)
Lemma no_match_before_modern p id suffix :
  p <> [] -> Forall (fun c => digit c = false) p -> Matches modern_id id ->
  match_re broad_pattern (p ++ id ++ suffix) (@Some str) = None.
Proof.
  intros Hne Hp Hid.
  destruct (match_re broad_pattern _ (@Some str)) as [x|] eqn:Hm; auto.
  exfalso. apply match_re_sound in Hm as (w & rest & E & M & _).
  destruct p as [|c p]; [now elim Hne|]. inversion Hp as [|? ? Hc Hp']; subst.
  unfold broad_pattern in M. inversion M as [| | |? ? ? G|? ? ? G| |]; subst.
  - apply modern_id_inv in G as (e4 & e & u & -> & G4 & K4 & _).
    destruct e4 as [|y e4]; [discriminate|]. inversion G4 as [|? ? Hy _]; subst.
    simpl in E. injection E as -> _. congruence.
  - apply legacy_id_inv in G as (q & e7 & u & -> & Hq & Lq & H7 & L7 & _).
    replace ((q ++ "/"%char :: e7 ++ u) ++ rest)
      with ((q ++ ["/"%char]) ++ e7 ++ (u ++ rest)) in E
      by (repeat (rewrite <- app_assoc; simpl); reflexivity).
    apply app_eq_app in E as [l [[E1 E2]|[E1 E2]]].
    + destruct l as [|z l].
      * simpl in E2. eapply modern_id_fifth; eauto.
      * destruct e7 as [|y e7]; [discriminate|]. inversion H7 as [|? ? Hy _].
        simpl in E2. injection E2 as Ey _.
        assert (Hin : In z (c :: p)) by (rewrite E1; apply in_or_app; right; now left).
        rewrite Forall_forall in Hp. apply Hp in Hin. congruence.
    + destruct (modern_id_starts_with_digit Hid) as (y & id' & -> & Hy).
      destruct l as [|z l]; [simpl in E2; eapply modern_id_fifth; eauto|].
      simpl in E2. injection E2 as Ez _. subst z.
      destruct (@exists_last _ (y :: l)) as (l' & z & El); [discriminate|].
      rewrite El, app_assoc in E1. apply app_inj_tail in E1 as [E1 <-].
      destruct l' as [|y' l'].
      * simpl in El. injection El as -> _. discriminate.
      * simpl in El. injection El as <- _.
        assert (Hin : In y q) by (rewrite E1; apply in_or_app; right; now left).
        unfold all in Hq. rewrite Forall_forall in Hq. apply Hq in Hin.
        apply digit_not_prefix_char in Hy. congruence.
Qed.

Lemma re_search_skips_prefix id suffix : forall p,
  Forall (fun c => digit c = false) p -> Matches modern_id id ->
  re_search broad_pattern (p ++ id ++ suffix)
  = re_search broad_pattern (id ++ suffix).
Proof.
  induction p as [|c p IH]; intros Hp Hid; auto.
  rewrite re_search_eq, no_match_before_modern; auto; [|discriminate].
  inversion Hp; subst. simpl. auto.
Qed.

Lemma match_version_then v suffix :
  Matches version_suffix v -> not_continuing suffix ->
  blocked digit (v ++ suffix) /\
  match_re version_suffix (v ++ suffix) (@Some str) = Some suffix.
Proof.
  intros Hv Hs. apply version_suffix_inv in Hv as [->|(x & ds & -> & Hx & Hds)].
  - destruct suffix as [|c suffix]; [split; reflexivity|].
    destruct Hs as [Hc Hv]. split; [exact Hc|].
    unfold version_suffix. cbn [match_re app]. unfold lit.
    destruct (Ascii.eqb "v" c) eqn:Ec; [|reflexivity].
    apply Ascii.eqb_eq in Ec. congruence.
  - split; [reflexivity|].
    unfold version_suffix. cbn [match_re lit Ascii.eqb Bool.eqb app].
    change (x :: ds ++ suffix) with ((x :: ds) ++ suffix).
    rewrite (@rep_greedy_longest digit (x :: ds) 1 None suffix (@Some str) suffix);
      simpl; auto; try lia.
    + constructor; auto.
    + destruct suffix; simpl in *; tauto.
Qed.

(** The broad search on a modern identifier followed by a text that
    does not continue it finds the identifier. *)
Lemma re_search_modern_then id suffix :
  Matches modern_id id -> not_continuing suffix ->
  re_search broad_pattern (id ++ suffix) = Some id.
Proof.
  intros Hid Hs.
  apply modern_id_inv in Hid as (d4 & d & v & -> & H4 & L4 & Hd & Ld & Hv).
  destruct (@match_version_then v suffix Hv Hs) as [Hb Hm].
  rewrite (@re_search_here _ _ suffix).
  - now rewrite firstn_matched.
  - apply match_re_alt_left.
    replace ((d4 ++ "."%char :: d ++ v) ++ suffix)
      with (d4 ++ "."%char :: d ++ (v ++ suffix))
      by (repeat (rewrite <- app_assoc; simpl); reflexivity).
    now apply match_modern_body.
Qed.

(** A modern identifier inside a text: when the text before it holds no
    digit and the text after it does not continue it, the extractor
    returns what it returns for the identifier alone. *)
Theorem extract_in_text prefix id suffix :
  Forall (fun c => digit c = false) (list_ascii_of_string prefix) ->
  fullmatch modern_id id ->
  not_continuing (list_ascii_of_string suffix) ->
  _extract_arxiv_id (prefix ++ id ++ suffix)%string = _extract_arxiv_id id.
Proof.
  intros Hp Hid Hs. unfold _extract_arxiv_id.
  rewrite !list_ascii_of_string_app, re_search_skips_prefix; auto.
  rewrite re_search_modern_then; auto.
  rewrite <- (app_nil_r (list_ascii_of_string id)) at 2.
  rewrite re_search_modern_then; simpl; auto.
Qed.

Lemma extract_in_text_witness :
  _extract_arxiv_id
    ("see https://arxiv.org/pdf/" ++ "2303.10130v12" ++ ".pdf now")%string
  = _extract_arxiv_id "2303.10130v12".
Proof.
  apply extract_in_text.
  - vm_compute. repeat constructor.
  - apply re_fullmatch_sound. reflexivity.
  - vm_compute. split; [reflexivity|discriminate].
Defined.

(** ** The tokens of a question *)

Lemma split_from_nil r skip piece : split_from r [] skip piece = [rev piece].
Proof. reflexivity. Qed.

Lemma split_from_skip r c s n piece :
  split_from r (c :: s) (S n) piece = split_from r s n piece.
Proof. reflexivity. Qed.

Lemma split_from_here r c s piece :
  split_from r (c :: s) 0 piece =
  match match_re r (c :: s) (@Some str) with
  | Some rest =>
      match List.length (c :: s) - List.length rest with
      | S n => rev piece :: split_from r s n []
      | 0 => split_from r s 0 (c :: piece)
      end
  | None => split_from r s 0 (c :: piece)
  end.
Proof. reflexivity. Qed.

(** Where [\W+] does not match, the character is a word character. *)
Lemma no_run_at_word_char c s :
  match_re non_word_run (c :: s) (@Some str) = None -> word_char c = true.
Proof.
  intros H. destruct (word_char c) eqn:Hc; auto. exfalso.
  assert (M : Matches non_word_run [c]).
  { constructor; simpl; auto. constructor; auto. unfold non_word_char. now rewrite Hc. }
  destruct (match_re_complete M s (@Some str)) as [y Hy]; [eauto|].
  simpl app in Hy. congruence.
Qed.

(** Where [\W+] matches, it takes a run of at least one non-word
    character. *)
Lemma run_at c s rest :
  match_re non_word_run (c :: s) (@Some str) = Some rest ->
  exists w, s = w ++ rest /\ all non_word_char (c :: w).
Proof.
  intros H. apply match_re_sound in H as (w & rest' & E & M & Hk).
  injection Hk as ->. unfold non_word_run in M. inv_matches.
  destruct w as [|c' w]; [simpl in *; lia|].
  simpl in E. injection E as <- ->. exists w. auto.
Qed.

Lemma filter_word_skip c s :
  non_word_char c = true -> filter word_char (c :: s) = filter word_char s.
Proof.
  unfold non_word_char. intros H. simpl.
  destruct (word_char c); [discriminate|reflexivity].
Qed.

(** The pieces of [re.split(r"\W+", s)], put end to end, are the word
    characters of [s] in their order. *)
Lemma split_from_concat s : forall skip piece,
  all non_word_char (firstn skip s) ->
  List.concat (split_from non_word_run s skip piece) = rev piece ++ filter word_char s.
Proof.
  induction s as [|c s IH]; intros skip piece Hskip.
  - rewrite split_from_nil. simpl. reflexivity.
  - destruct skip as [|n].
    + rewrite split_from_here.
      destruct (match_re non_word_run (c :: s) (@Some str)) as [rest|] eqn:Hm.
      * apply run_at in Hm as (w & -> & Hw). inversion Hw as [|? ? Hc Hw']; subst.
        replace (List.length (c :: w ++ rest) - List.length rest)
          with (S (List.length w))
          by (change (List.length (c :: w ++ rest)) with (S (List.length (w ++ rest)));
              rewrite length_app; lia).
        simpl List.concat. rewrite IH.
        -- rewrite filter_word_skip; auto.
        -- rewrite firstn_app, Nat.sub_diag, firstn_all. simpl.
           now rewrite app_nil_r.
      * apply no_run_at_word_char in Hm. rewrite IH; [|constructor].
        simpl. rewrite Hm. now rewrite <- app_assoc.
    + rewrite split_from_skip. simpl in Hskip. inversion Hskip as [|? ? Hc Hn]; subst.
      rewrite IH; auto. now rewrite filter_word_skip.
Qed.

Lemma split_from_word_chars s : forall skip piece,
  all non_word_char (firstn skip s) -> all word_char piece ->
  Forall (all word_char) (split_from non_word_run s skip piece).
Proof.
  induction s as [|c s IH]; intros skip piece Hskip Hpiece.
  - rewrite split_from_nil. constructor; [|constructor].
    unfold all in *. apply Forall_rev. exact Hpiece.
  - destruct skip as [|n].
    + rewrite split_from_here.
      destruct (match_re non_word_run (c :: s) (@Some str)) as [rest|] eqn:Hm.
      * apply run_at in Hm as (w & -> & Hw). inversion Hw as [|? ? Hc Hw']; subst.
        replace (List.length (c :: w ++ rest) - List.length rest)
          with (S (List.length w))
          by (change (List.length (c :: w ++ rest)) with (S (List.length (w ++ rest)));
              rewrite length_app; lia).
        constructor.
        -- unfold all in *. apply Forall_rev. exact Hpiece.
        -- apply IH; [|constructor].
           rewrite firstn_app, Nat.sub_diag, firstn_all. simpl.
           now rewrite app_nil_r.
      * apply no_run_at_word_char in Hm. apply IH; constructor; auto.
    + rewrite split_from_skip. simpl in Hskip. inversion Hskip; subst.
      apply IH; auto.
Qed.

Lemma map_list_of_string_of (l : list str) :
  map list_ascii_of_string (map string_of_list_ascii l) = l.
Proof.
  induction l as [|x l IH]; simpl; auto.
  now rewrite list_ascii_of_string_of_list_ascii, IH.
Qed.

Lemma re_split_concat s :
  List.concat (map list_ascii_of_string (re_split non_word_run s))
  = filter word_char (list_ascii_of_string s).
Proof.
  unfold re_split. rewrite map_list_of_string_of.
  rewrite split_from_concat; [reflexivity|constructor].
Qed.

(** Splitting on [\W+] loses the separators and nothing else: every
    piece is made of word characters only, and the pieces, put end to
    end, are the word characters of the string in their order. *)
Theorem re_split_keeps_word_chars s :
  Forall (fun piece => all word_char (list_ascii_of_string piece))
    (re_split non_word_run s) /\
  List.concat (map list_ascii_of_string (re_split non_word_run s))
  = filter word_char (list_ascii_of_string s).
Proof.
  split; [|apply re_split_concat].
  unfold re_split. rewrite Forall_map.
  eapply Forall_impl; [|apply (@split_from_word_chars (list_ascii_of_string s) 0 [])];
    try constructor.
  intros piece H. now rewrite list_ascii_of_string_of_list_ascii.
Qed.

Lemma lower_char_idempotent c : lower_char (lower_char c) = lower_char c.
Proof. destruct c as [[] [] [] [] [] [] [] []]; reflexivity. Qed.

Lemma list_of_lower s :
  list_ascii_of_string (lower s) = map lower_char (list_ascii_of_string s).
Proof. induction s as [|c s IH]; simpl; [reflexivity|now rewrite IH]. Qed.

Lemma lower_fixed s :
  Forall (fun c => lower_char c = c) (list_ascii_of_string s) -> lower s = s.
Proof.
  induction s as [|c s IH]; simpl; intros H; auto.
  inversion H as [|? ? Hc Hs]; subst. now rewrite Hc, IH.
Qed.

(** [str.lower] applied twice is [str.lower]. *)
Lemma lower_idempotent s : lower (lower s) = lower s.
Proof. induction s as [|c s IH]; simpl; [reflexivity|]. now rewrite lower_char_idempotent, IH. Qed.

(** Every keyword kept from a question is a non-empty run of word
    characters, is in lower case and is not a stop word. *)
Theorem question_words_are_keywords question word :
  In word (question_words question) ->
  word <> "" /\
  all word_char (list_ascii_of_string word) /\
  lower word = word /\
  ~ In word STOP_WORDS.
Proof.
  unfold question_words. intros H. apply filter_In in H as [Hin Hf].
  apply andb_true_iff in Hf as [Ht Hs].
  split; [intros ->; discriminate|]. split; [|split].
  - unfold re_split in Hin. apply in_map_iff in Hin as (piece & <- & Hin).
    rewrite list_ascii_of_string_of_list_ascii.
    pose proof (@split_from_word_chars (list_ascii_of_string (lower question)) 0 [])
      as Hall.
    rewrite Forall_forall in Hall. apply Hall; auto; constructor.
  - apply lower_fixed. rewrite Forall_forall. intros c Hc.
    assert (Hsrc : In c (list_ascii_of_string (lower question))).
    { assert (Hcat : In c (List.concat (map list_ascii_of_string
                                    (re_split non_word_run (lower question))))).
      { apply in_concat. exists (list_ascii_of_string word). split; auto.
        now apply in_map. }
      rewrite re_split_concat in Hcat.
      now apply filter_In in Hcat as [Hcat _]. }
    rewrite list_of_lower in Hsrc. apply in_map_iff in Hsrc as (x & <- & _).
    apply lower_char_idempotent.
  - intros Hstop. apply negb_true_iff in Hs.
    unfold is_stop_word in Hs.
    assert (existsb (String.eqb word) STOP_WORDS = true).
    { apply existsb_exists. exists word. split; auto. apply String.eqb_refl. }
    congruence.
Qed.

Lemma question_words_are_keywords_witness :
  "gravitational" <> "" /\
  all word_char (list_ascii_of_string "gravitational") /\
  lower "gravitational" = "gravitational" /\
  ~ In "gravitational" STOP_WORDS.
Proof.
  apply (@question_words_are_keywords "What about Gravitational WAVES?").
  vm_compute. left. reflexivity.
Defined.

(** The case of the question does not matter. *)
Theorem question_words_ignore_case question :
  question_words (lower question) = question_words question.
Proof. unfold question_words. now rewrite lower_idempotent. Qed.

(** ** Containment *)

Lemma prefix_iff w s :
  String.prefix w s = true <-> exists after, s = (w ++ after)%string.
Proof.
  revert s. induction w as [|a w IH]; intros s.
  - destruct s; simpl; split; eauto.
  - destruct s as [|b s]; simpl.
    + split; [discriminate|]. intros [after E]. discriminate.
    + destruct (ascii_dec a b) as [->|Hab].
      * rewrite IH. split; intros [after E]; exists after.
        -- now rewrite E.
        -- now injection E.
      * split; [discriminate|]. intros [after E]. injection E as E _. congruence.
Qed.

(** [word in text] holds exactly when the text is some text, the word,
    and some more text. *)
Lemma contains_iff s w :
  contains s w = true <-> exists before after, s = (before ++ w ++ after)%string.
Proof.
  induction s as [|c s IH]; cbn [contains].
  - rewrite orb_false_r, prefix_iff. split.
    + intros [after E]. exists "", after. exact E.
    + intros (before & after & E). destruct before; [eauto|discriminate].
  - rewrite orb_true_iff, prefix_iff, IH. split.
    + intros [[after E]|(before & after & E)].
      * exists "", after. exact E.
      * exists (String c before), after. simpl. now rewrite E.
    + intros (before & after & E). destruct before as [|b before].
      * left. eauto.
      * right. simpl in E. injection E as _ E. eauto.
Qed.

Lemma contains_empty_text w : w <> "" -> contains "" w = false.
Proof. destruct w; [now intros H; elim H|reflexivity]. Qed.

Lemma count_found_none abstract_lower words :
  Forall (fun w => contains abstract_lower w = false) words ->
  count_found abstract_lower words = 0%Z.
Proof.
  intros H. rewrite count_found_filter.
  induction H as [|w ws Hw _ IH]; simpl; auto. now rewrite Hw.
Qed.

Lemma count_found_all abstract_lower words :
  Forall (fun w => contains abstract_lower w = true) words ->
  count_found abstract_lower words = Z.of_nat (List.length words).
Proof.
  intros H. rewrite count_found_filter. f_equal.
  induction H as [|w ws Hw _ IH]; simpl; auto. now rewrite Hw; simpl; rewrite IH.
Qed.

Lemma more_than_half_zero words :
  more_than_half 0 words = false.
Proof.
  unfold more_than_half. destruct (gt_Q _ _) eqn:H; auto.
  apply gt_Q_iff in H. unfold half, Qlt, Qdiv, Qmult, Qinv, inject_Z in H.
  simpl in H. lia.
Qed.

Lemma more_than_half_all w ws :
  more_than_half (Z.of_nat (List.length (w :: ws))) (w :: ws) = true.
Proof.
  unfold more_than_half. apply gt_Q_iff.
  unfold half, Qlt, Qdiv, Qmult, Qinv, inject_Z. simpl. lia.
Qed.

(** With at least one keyword, when every keyword occurs in the
    lower-cased abstract the answer type is [found_in_abstract]. *)
Theorem keyword_test_all_found abstract words :
  words <> [] ->
  Forall (fun w => contains (lower abstract) w = true) words ->
  classification abstract words = "found_in_abstract".
Proof.
  intros Hne H. destruct words as [|w ws]; [now elim Hne|].
  unfold classification. now rewrite count_found_all, more_than_half_all.
Qed.

Lemma keyword_test_all_found_witness :
  classification "Deep Neural Networks." (question_words "neural networks?")
  = "found_in_abstract".
Proof.
  apply keyword_test_all_found.
  - vm_compute. discriminate.
  - vm_compute. repeat constructor.
Defined.

(** With at least one keyword, when no keyword occurs in the
    lower-cased abstract the answer type is [not_found_in_abstract]. *)
Theorem keyword_test_none_found abstract words :
  words <> [] ->
  Forall (fun w => contains (lower abstract) w = false) words ->
  classification abstract words = "not_found_in_abstract".
Proof.
  intros Hne H. destruct words as [|w ws]; [now elim Hne|].
  unfold classification. now rewrite count_found_none, more_than_half_zero.
Qed.

Lemma keyword_test_none_found_witness :
  classification "Deep Neural Networks." (question_words "quantum gravity")
  = "not_found_in_abstract".
Proof.
  apply keyword_test_none_found.
  - vm_compute. discriminate.
  - vm_compute. repeat constructor.
Defined.

(** ** The identifier field of a paper *)

Lemma split_char_nonempty sep s : split_char sep s <> [].
Proof.
  destruct s as [|c s]; simpl; [discriminate|].
  destruct (Ascii.eqb c sep); [discriminate|].
  destruct (split_char sep s); discriminate.
Qed.

Lemma split_char_free sep s : free_of sep s -> split_char sep s = [s].
Proof.
  unfold free_of. induction s as [|c s IH]; simpl; intros H; auto.
  destruct (Ascii.eqb c sep) eqn:E.
  - apply Ascii.eqb_eq in E. elim H. now left.
  - rewrite IH; auto.
Qed.

Lemma split_char_two sep x : forall base,
  exists piece piece' pieces,
    split_char sep (base ++ String sep x) = piece :: piece' :: pieces.
Proof.
  induction base as [|c base (piece & piece' & pieces & IH)]; simpl.
  - rewrite Ascii.eqb_refl.
    destruct (split_char sep x) as [|y ys] eqn:E; [now apply split_char_nonempty in E|].
    eauto.
  - destruct (Ascii.eqb c sep); rewrite IH; eauto.
Qed.

(** The last piece of [(base + sep + x).split(sep)] is [x] when [x] is
    free of the separator. *)
Lemma last_item_after_sep sep x : forall base,
  free_of sep x ->
  last_item (split_char sep (base ++ String sep x)) = x.
Proof.
  unfold last_item. intros base Hx. induction base as [|c base IH]; simpl.
  - rewrite Ascii.eqb_refl, split_char_free; auto.
  - destruct (split_char_two sep x base) as (piece & piece' & pieces & E).
    rewrite E in IH |- *. destruct (Ascii.eqb c sep); exact IH.
Qed.

Lemma last_sep_decompose sep s :
  ~ free_of sep s ->
  exists base x, s = (base ++ String sep x)%string /\ free_of sep x.
Proof.
  unfold free_of. induction s as [|c s IH]; simpl; intros H.
  - elim H. auto.
  - destruct (in_dec ascii_dec sep (list_ascii_of_string s)) as [Hin|Hout].
    + destruct IH as (base & x & -> & Hx); [tauto|].
      exists (String c base), x. auto.
    + assert (c = sep) as -> by (destruct (ascii_dec c sep); auto; elim H; intros [?|?]; tauto).
      exists "", s. auto.
Qed.

(** The [arxiv_id] field of the dictionary built for a paper is what
    follows the last slash of the entry identifier, or the whole entry
    identifier when it has no slash; it holds no slash. *)
Theorem arxiv_id_is_last_segment result :
  exists arxiv_id,
    field (paper_details result) "arxiv_id" = Some (Str arxiv_id) /\
    free_of "/" arxiv_id /\
    (entry_id result = arxiv_id \/
     exists base, entry_id result = (base ++ String "/" arxiv_id)%string).
Proof.
  eexists. split; [reflexivity|].
  destruct (in_dec ascii_dec "/"%char (list_ascii_of_string (entry_id result)))
    as [Hin|Hout].
  - destruct (@last_sep_decompose "/" (entry_id result)) as (base & x & E & Hx).
    { unfold free_of. tauto. }
    rewrite E, last_item_after_sep; eauto.
  - rewrite split_char_free; [|exact Hout]. unfold last_item. simpl. auto.
Qed.

(** ** What the operations return and send *)

Lemma for_each_success details rest : forall papers_list,
  for_each details rest None papers_list = Returns (papers_list ++ map details rest).
Proof.
  induction rest as [|r rest IH]; intros acc; simpl.
  - now rewrite app_nil_r.
  - rewrite IH. now rewrite <- app_assoc.
Qed.

(** When the client yields results and does not fail, the search
    returns one dictionary per result, in the order of the client,
    without a message. *)
Theorem search_returns_all_results client query sent :
  items (client (Search_query query 5 Relevance)) <> [] ->
  failure (client (Search_query query 5 Relevance)) = None ->
  search_arxiv_papers client query sent
  = (Returns [ ("status", Str "success");
               ("papers",
                Arr (map paper_details
                       (items (client (Search_query query 5 Relevance))))) ],
     sent ++ [Search_query query 5 Relevance]).
Proof.
  intros Hi Hf.
  unfold search_arxiv_papers, try_except, bind, results, lift, ret.
  rewrite Hf, for_each_success. simpl.
  destruct (items (client (Search_query query 5 Relevance))); [now elim Hi|].
  reflexivity.
Qed.

Lemma search_returns_all_results_witness :
  search_arxiv_papers cat_client "cats" []
  = (Returns [ ("status", Str "success");
               ("papers",
                Arr (map paper_details
                       (items (cat_client (Search_query "cats" 5 Relevance))))) ],
     [] ++ [Search_query "cats" 5 Relevance]).
Proof.
  apply (@search_returns_all_results cat_client "cats" []).
  - discriminate.
  - reflexivity.
Defined.

(** The summary takes the first result of the client and nothing more:
    it returns the dictionary of that paper whatever the client would
    yield or raise afterwards. *)
Theorem summarize_uses_first_result client arxiv_id_or_url arxiv_id paper others sent :
  _extract_arxiv_id arxiv_id_or_url = Some arxiv_id ->
  items (client (Search_id_list [arxiv_id])) = paper :: others ->
  summarize_arxiv_paper client arxiv_id_or_url sent
  = (Returns [ ("status", Str "success"); ("paper", paper_details paper) ],
     sent ++ [Search_id_list [arxiv_id]]).
Proof.
  intros He Hi. pose proof (extract_truthy _ He) as Ht.
  unfold summarize_arxiv_paper, try_except, bind, results, lift, ret, next_or_None.
  rewrite He, Ht. simpl. now rewrite Hi.
Qed.

Lemma summarize_uses_first_result_witness :
  summarize_arxiv_paper cat_client "https://arxiv.org/abs/2303.10130v1" []
  = (Returns [ ("status", Str "success"); ("paper", paper_details cat_paper) ],
     [] ++ [Search_id_list ["2303.10130v1"]]).
Proof.
  apply (@summarize_uses_first_result cat_client
           "https://arxiv.org/abs/2303.10130v1" "2303.10130v1" cat_paper [] []);
    reflexivity.
Defined.

(** When the client knows no paper for the identifier, the summary
    fails with a fixed message and the answer operation fails with a
    message that quotes the identifier as extracted, not the input. *)
Theorem paper_not_found client arxiv_id_or_url question arxiv_id sent :
  _extract_arxiv_id arxiv_id_or_url = Some arxiv_id ->
  items (client (Search_id_list [arxiv_id])) = [] ->
  failure (client (Search_id_list [arxiv_id])) = None ->
  summarize_arxiv_paper client arxiv_id_or_url sent
  = (Returns [ ("status", Str "error");
               ("message", Str "Paper not found or invalid ID.") ],
     sent ++ [Search_id_list [arxiv_id]]) /\
  answer_paper_question client arxiv_id_or_url question sent
  = (Returns [ ("status", Str "error");
               ("message",
                Str ("Paper with ID '" ++ arxiv_id ++ "' not found.")%string) ],
     sent ++ [Search_id_list [arxiv_id]]).
Proof.
  intros He Hi Hf. pose proof (extract_truthy _ He) as Ht.
  unfold summarize_arxiv_paper, answer_paper_question,
    try_except, bind, results, lift, ret, next_or_None.
  rewrite He, Ht. simpl. rewrite Hi, Hf. split; reflexivity.
Qed.

Lemma paper_not_found_witness :
  summarize_arxiv_paper empty_client "https://arxiv.org/abs/2303.10130v12" []
  = (Returns [ ("status", Str "error");
               ("message", Str "Paper not found or invalid ID.") ],
     [] ++ [Search_id_list ["2303.10130v1"]]) /\
  answer_paper_question empty_client "https://arxiv.org/abs/2303.10130v12"
    "Which cat?" []
  = (Returns [ ("status", Str "error");
               ("message",
                Str ("Paper with ID '" ++ "2303.10130v1" ++ "' not found.")%string) ],
     [] ++ [Search_id_list ["2303.10130v1"]]).
Proof.
  apply (@paper_not_found empty_client "https://arxiv.org/abs/2303.10130v12"
           "Which cat?" "2303.10130v1" []); reflexivity.
Defined.

(** The requests an operation sends.  The search sends one request,
    for the query, five results at most, by relevance.  The summary and
    the answer send one request, for the extracted identifier alone,
    when the extractor finds one, and none otherwise. *)
Theorem requests_sent client :
  (forall query sent,
     snd (search_arxiv_papers client query sent)
     = sent ++ [Search_query query 5 Relevance]) /\
  (forall arxiv_id_or_url sent,
     snd (summarize_arxiv_paper client arxiv_id_or_url sent)
     = match _extract_arxiv_id arxiv_id_or_url with
       | Some arxiv_id => sent ++ [Search_id_list [arxiv_id]]
       | None => sent
       end) /\
  (forall arxiv_id_or_url question sent,
     snd (answer_paper_question client arxiv_id_or_url question sent)
     = match _extract_arxiv_id arxiv_id_or_url with
       | Some arxiv_id => sent ++ [Search_id_list [arxiv_id]]
       | None => sent
       end).
Proof.
  repeat split.
  - intros query sent.
    unfold search_arxiv_papers, try_except, bind, results, lift, ret.
    destruct (for_each _ _ _ _) as [[|]|[|]]; reflexivity.
  - intros s sent.
    unfold summarize_arxiv_paper, try_except, bind, results, lift, ret.
    destruct (_extract_arxiv_id s) as [arxiv_id|] eqn:He; [|reflexivity].
    rewrite (extract_truthy _ He). simpl.
    destruct (next_or_None _) as [[|]|[|]]; reflexivity.
  - intros s question sent.
    unfold answer_paper_question, try_except, bind, results, lift, ret.
    destruct (_extract_arxiv_id s) as [arxiv_id|] eqn:He; [|reflexivity].
    rewrite (extract_truthy _ He). simpl.
    destruct (next_or_None _) as [[|]|[|]]; try reflexivity.
    destruct (question_words question); [reflexivity|].
    destruct (more_than_half _ _); reflexivity.
Qed.

(** Every operation returns an envelope as long as what the client
    raises, if it raises, is an instance of [Exception]: the operation
    then raises nothing, the status is [success] or [error], and an
    error carries a message. *)
Theorem operations_return_envelopes client :
  (forall search name, failure (client search) <> Some (Interrupt name)) ->
  (forall query sent,
     exists d, fst (search_arxiv_papers client query sent) = Returns d /\ envelope d) /\
  (forall arxiv_id_or_url sent,
     exists d,
       fst (summarize_arxiv_paper client arxiv_id_or_url sent) = Returns d /\
       envelope d) /\
  (forall arxiv_id_or_url question sent,
     exists d,
       fst (answer_paper_question client arxiv_id_or_url question sent) = Returns d /\
       envelope d).
Proof.
  intros Hclient.
  assert (Hs : forall rest, envelope (("status", Str "success") :: rest))
    by (intros; left; reflexivity).
  assert (He : forall m, envelope [("status", Str "error"); ("message", Str m)])
    by (intros; right; split; [reflexivity|eexists; reflexivity]).
  assert (Hfor : forall details search acc name,
            for_each details (items (client search)) (failure (client search)) acc
            <> Raises (Interrupt name)).
  { intros details search acc name.
    destruct (failure (client search)) as [[e|other]|] eqn:Hf.
    - rewrite for_each_failure. discriminate.
    - elim (Hclient _ _ Hf).
    - rewrite for_each_success. discriminate. }
  assert (Hnext : forall search name,
            next_or_None (client search) <> Raises (Interrupt name)).
  { intros search name. unfold next_or_None.
    destruct (items (client search)); [|discriminate].
    destruct (failure (client search)) as [[e|other]|] eqn:Hf; try discriminate.
    elim (Hclient _ _ Hf). }
  repeat split.
  - intros query sent.
    unfold search_arxiv_papers, try_except, bind, results, lift, ret.
    destruct (for_each _ _ _ _) as [[|]|[e|name]] eqn:Hr; simpl; eauto.
    elim (Hfor _ _ _ _ Hr).
  - intros s sent.
    unfold summarize_arxiv_paper, try_except, bind, results, lift, ret.
    destruct (_extract_arxiv_id s) as [arxiv_id|]; simpl; eauto.
    destruct (truthy arxiv_id); simpl; eauto.
    destruct (next_or_None _) as [[|]|[e|name]] eqn:Hr; simpl; eauto.
    elim (Hnext _ _ Hr).
  - intros s question sent.
    unfold answer_paper_question, try_except, bind, results, lift, ret.
    destruct (_extract_arxiv_id s) as [arxiv_id|]; simpl; eauto.
    destruct (truthy arxiv_id); simpl; eauto.
    destruct (next_or_None _) as [[|]|[e|name]] eqn:Hr; simpl; eauto.
    + destruct (question_words question); simpl; eauto.
      destruct (more_than_half _ _); simpl; eauto.
    + elim (Hnext _ _ Hr).
Qed.

Lemma operations_return_envelopes_witness :
  (forall query sent,
     exists d,
       fst (search_arxiv_papers failing_client query sent) = Returns d /\
       envelope d) /\
  (forall arxiv_id_or_url sent,
     exists d,
       fst (summarize_arxiv_paper failing_client arxiv_id_or_url sent) = Returns d /\
       envelope d) /\
  (forall arxiv_id_or_url question sent,
     exists d,
       fst (answer_paper_question failing_client arxiv_id_or_url question sent)
       = Returns d /\
       envelope d).
Proof.
  apply (@operations_return_envelopes failing_client).
  intros search name. simpl. discriminate.
Defined.

(** A raise that is not an instance of [Exception], such as a
    [KeyboardInterrupt] while the client is waited for, is not caught:
    it leaves each of the three operations. *)
Theorem interrupt_leaves_operations client :
  (forall query name sent,
     failure (client (Search_query query 5 Relevance)) = Some (Interrupt name) ->
     fst (search_arxiv_papers client query sent) = Raises (Interrupt name)) /\
  (forall arxiv_id_or_url arxiv_id name sent,
     _extract_arxiv_id arxiv_id_or_url = Some arxiv_id ->
     next_or_None (client (Search_id_list [arxiv_id])) = Raises (Interrupt name) ->
     fst (summarize_arxiv_paper client arxiv_id_or_url sent)
     = Raises (Interrupt name)) /\
  (forall arxiv_id_or_url question arxiv_id name sent,
     _extract_arxiv_id arxiv_id_or_url = Some arxiv_id ->
     next_or_None (client (Search_id_list [arxiv_id])) = Raises (Interrupt name) ->
     fst (answer_paper_question client arxiv_id_or_url question sent)
     = Raises (Interrupt name)).
Proof.
  repeat split.
  - intros query name sent Hf.
    unfold search_arxiv_papers, try_except, bind, results, lift, ret.
    rewrite Hf, for_each_failure. reflexivity.
  - intros s arxiv_id name sent He Hn. pose proof (extract_truthy _ He) as Ht.
    unfold summarize_arxiv_paper, try_except, bind, results, lift, ret.
    rewrite He, Ht. simpl. rewrite Hn. reflexivity.
  - intros s question arxiv_id name sent He Hn. pose proof (extract_truthy _ He) as Ht.
    unfold answer_paper_question, try_except, bind, results, lift, ret.
    rewrite He, Ht. simpl. rewrite Hn. reflexivity.
Qed.

Lemma interrupt_leaves_operations_witness :
  fst (search_arxiv_papers interrupted_client "cats" [])
    = Raises (Interrupt "KeyboardInterrupt") /\
  fst (summarize_arxiv_paper interrupted_client "2303.10130" [])
    = Raises (Interrupt "KeyboardInterrupt") /\
  fst (answer_paper_question interrupted_client "2303.10130" "Which cat?" [])
    = Raises (Interrupt "KeyboardInterrupt").
Proof.
  destruct (interrupt_leaves_operations interrupted_client)
    as (Hsearch & Hsummary & Hanswer).
  split; [|split].
  - apply Hsearch. reflexivity.
  - apply Hsummary with (arxiv_id := "2303.10130"); reflexivity.
  - apply Hanswer with (arxiv_id := "2303.10130"); reflexivity.
Defined.

(** When the paper is fetched, the answer carries its abstract and its
    title back as the client gave them, and the answer type is one of
    the three kinds. *)
Theorem answer_carries_paper_text client arxiv_id_or_url question arxiv_id paper sent :
  _extract_arxiv_id arxiv_id_or_url = Some arxiv_id ->
  next_or_None (client (Search_id_list [arxiv_id])) = Returns (Some paper) ->
  exists d answer_type,
    fst (answer_paper_question client arxiv_id_or_url question sent) = Returns d /\
    get d "status" = Some (Str "success") /\
    get d "abstract" = Some (Str (summary paper)) /\
    get d "title" = Some (Str (title paper)) /\
    get d "answer_type" = Some (Str answer_type) /\
    In answer_type
      ["not_enough_keywords"; "found_in_abstract"; "not_found_in_abstract"].
Proof.
  intros He Hn.
  destruct (@answer_of_fetched_paper client _ question _ _ sent He Hn) as [message E].
  rewrite E. eexists. eexists. repeat split; try reflexivity.
  unfold classification. destruct (question_words question); [simpl; auto|].
  destruct (more_than_half _ _); simpl; auto.
Qed.

Lemma answer_carries_paper_text_witness :
  exists d answer_type,
    fst (answer_paper_question cat_client "2303.10130" "Which cat?" []) = Returns d /\
    get d "status" = Some (Str "success") /\
    get d "abstract" = Some (Str (summary cat_paper)) /\
    get d "title" = Some (Str (title cat_paper)) /\
    get d "answer_type" = Some (Str answer_type) /\
    In answer_type
      ["not_enough_keywords"; "found_in_abstract"; "not_found_in_abstract"].
Proof.
  apply (@answer_carries_paper_text cat_client "2303.10130" "Which cat?"
           "2303.10130" cat_paper []); reflexivity.
Defined.

Lemma question_words_nonempty question word :
  In word (question_words question) -> word <> "".
Proof.
  unfold question_words. intros H. apply filter_In in H as [_ Hf].
  apply andb_true_iff in Hf as [Ht _]. intros ->. discriminate.
Qed.

(** A paper whose abstract is empty is never answered
    [found_in_abstract]. *)
Theorem answer_on_empty_abstract client arxiv_id_or_url question arxiv_id paper sent :
  _extract_arxiv_id arxiv_id_or_url = Some arxiv_id ->
  next_or_None (client (Search_id_list [arxiv_id])) = Returns (Some paper) ->
  summary paper = "" ->
  exists d,
    fst (answer_paper_question client arxiv_id_or_url question sent) = Returns d /\
    (get d "answer_type" = Some (Str "not_enough_keywords") \/
     get d "answer_type" = Some (Str "not_found_in_abstract")).
Proof.
  intros He Hn Hs.
  destruct (@answer_of_fetched_paper client _ question _ _ sent He Hn) as [message E].
  rewrite E. eexists. split; [reflexivity|]. simpl get. rewrite Hs.
  unfold classification.
  destruct (question_words question) as [|w ws] eqn:Ew; [now left|right].
  rewrite count_found_none, more_than_half_zero; auto.
  rewrite Forall_forall. intros x Hx. apply contains_empty_text.
  apply (@question_words_nonempty question). now rewrite Ew.
Qed.

Lemma answer_on_empty_abstract_witness :
  exists d,
    fst (answer_paper_question
           (fun _ => {| items := [ {| title := "Untitled"; authors := [];
                                      published_ymd := "2001-01-01"; summary := "";
                                      entry_id := "http://arxiv.org/abs/2303.10130v1";
                                      primary_category := "cs.CL";
                                      pdf_url := "" |} ];
                        failure := None |})
           "2303.10130" "Which cat?" []) = Returns d /\
    (get d "answer_type" = Some (Str "not_enough_keywords") \/
     get d "answer_type" = Some (Str "not_found_in_abstract")).
Proof.
  eapply (@answer_on_empty_abstract _ "2303.10130" "Which cat?" "2303.10130");
    reflexivity.
Defined.

(** ** From a search result to the other operations *)

Lemma modern_id_1_free_of_slash id : fullmatch modern_id_1 id -> free_of "/" id.
Proof.
  unfold fullmatch, free_of. intros M Hin.
  apply Matches_alphabet in M. unfold all in M.
  rewrite Forall_forall in M. apply M in Hin. discriminate.
Qed.

(** The identifier field of a search result is accepted by the summary
    when the entry identifier ends with a slash and a modern identifier
    whose version has one digit: the summary then asks the client for
    exactly that identifier. *)
Theorem search_result_can_be_summarized client result base id sent :
  entry_id result = (base ++ String "/" id)%string ->
  fullmatch modern_id_1 id ->
  field (paper_details result) "arxiv_id" = Some (Str id) /\
  snd (summarize_arxiv_paper client id sent) = sent ++ [Search_id_list [id]].
Proof.
  intros E Hid. split.
  - simpl. rewrite E, last_item_after_sep; auto using modern_id_1_free_of_slash.
  - pose proof (extract_modern_id_1 Hid) as He.
    unfold summarize_arxiv_paper, try_except, bind, results, lift, ret.
    rewrite He, (extract_truthy _ He). simpl.
    destruct (next_or_None _) as [[|]|[|]]; reflexivity.
Qed.

Lemma search_result_can_be_summarized_witness :
  field (paper_details cat_paper) "arxiv_id" = Some (Str "2303.10130v1") /\
  snd (summarize_arxiv_paper empty_client "2303.10130v1" [])
  = [] ++ [Search_id_list ["2303.10130v1"]].
Proof.
  apply (@search_result_can_be_summarized empty_client cat_paper
           "http://arxiv.org/abs" "2303.10130v1" []).
  - reflexivity.
  - apply re_fullmatch_sound. reflexivity.
Defined.

Lemma broad_has_dot_or_slash g :
  Matches broad_pattern g -> In "."%char g \/ In "/"%char g.
Proof.
  unfold broad_pattern. intros M. inversion M as [| | |? ? ? G|? ? ? G| |]; subst.
  - left. apply modern_id_inv in G as (d4 & d & v & -> & _).
    apply in_or_app. right. now left.
  - right. apply legacy_id_inv in G as (pre & d7 & v & -> & _).
    apply in_or_app. right. now left.
Qed.

Lemma number_and_version_chars d7 v c :
  all digit d7 -> Matches version_suffix v -> In c (d7 ++ v) ->
  c <> "."%char /\ c <> "/"%char.
Proof.
  intros Hd Hv Hin.
  assert (M : Matches (Seq (Rep digit 0 None) version_suffix) (d7 ++ v)).
  { apply MSeq; auto. constructor; simpl; auto. lia. }
  apply Matches_alphabet in M. unfold all in M. rewrite Forall_forall in M.
  apply M in Hin. split; intros ->; discriminate.
Qed.

(** ** The keyword test against its description *)

Lemma Selected_filter {A : Type} (P : A -> Prop) (f : A -> bool) l l' :
  (forall x, f x = true <-> P x) -> Selected P l l' -> filter f l = l'.
Proof.
  intros Hf. induction 1 as [|x l l' Hx _ IH|x l l' Hx _ IH]; simpl; auto.
  - apply Hf in Hx. now rewrite Hx, IH.
  - destruct (f x) eqn:E; [|exact IH]. apply Hf in E. contradiction.
Qed.

Lemma Selected_total {A : Type} (P : A -> Prop) (f : A -> bool) l :
  (forall x, f x = true <-> P x) -> Selected P l (filter f l).
Proof.
  intros Hf. induction l as [|x l IH]; simpl; [constructor|].
  destruct (f x) eqn:E.
  - apply Selected_keep; auto. now apply Hf.
  - apply Selected_drop; auto. intros Hx. apply Hf in Hx. congruence.
Qed.

Lemma is_stop_word_iff word : is_stop_word word = true <-> In word STOP_WORDS.
Proof.
  unfold is_stop_word. rewrite existsb_exists. split.
  - intros (x & Hin & E). apply String.eqb_eq in E. now subst.
  - intros Hin. exists word. split; auto. apply String.eqb_refl.
Qed.

Lemma not_stop_word_iff word :
  negb (is_stop_word word) = true <-> ~ In word STOP_WORDS.
Proof.
  rewrite negb_true_iff, <- is_stop_word_iff.
  destruct (is_stop_word word); split; congruence.
Qed.

Lemma contains_occurs text word :
  contains text word = true <-> occurs_in word text.
Proof. apply contains_iff. Qed.

(** A word character is never the start of a separator. *)
Lemma no_run_at c s :
  word_char c = true -> match_re non_word_run (c :: s) (@Some str) = None.
Proof.
  intros Hc. unfold non_word_run. simpl. unfold non_word_char. now rewrite Hc.
Qed.

(** A separator is taken whole. *)
Lemma run_taken sep rest :
  all non_word_char sep -> sep <> [] -> blocked non_word_char rest ->
  match_re non_word_run (sep ++ rest) (@Some str) = Some rest.
Proof.
  intros Hs Hne Hb. unfold non_word_run.
  change (match_re (Rep ?p ?lo ?hi) ?s ?k) with (rep_greedy p lo hi s k).
  apply rep_greedy_longest; simpl; auto.
  destruct sep; [now elim Hne|simpl; lia].
Qed.

Lemma split_from_passes r a rest : forall piece,
  split_from r (a ++ rest) (List.length a) piece = split_from r rest 0 piece.
Proof.
  induction a as [|c a IH]; intros piece; simpl List.length.
  - reflexivity.
  - simpl app. destruct a as [|c' a'].
    + simpl. destruct rest; reflexivity.
    + rewrite split_from_skip. apply IH.
Qed.

Lemma split_at_separator sep rest piece :
  all non_word_char sep -> sep <> [] -> blocked non_word_char rest ->
  split_from non_word_run (sep ++ rest) 0 piece
  = rev piece :: split_from non_word_run rest 0 [].
Proof.
  intros Hs Hne Hb. pose proof (@run_taken sep rest Hs Hne Hb) as Hm.
  destruct sep as [|c sep]; [now elim Hne|].
  simpl app in *. rewrite split_from_here, Hm.
  replace (List.length (c :: sep ++ rest) - List.length rest)
    with (S (List.length sep))
    by (change (List.length (c :: sep ++ rest)) with (S (List.length (sep ++ rest)));
        rewrite length_app; lia).
  now rewrite split_from_passes.
Qed.

Lemma split_in_word w rest : forall piece,
  all word_char w ->
  split_from non_word_run (w ++ rest) 0 piece
  = split_from non_word_run rest 0 (rev w ++ piece).
Proof.
  induction w as [|c w IH]; intros piece Hw; [reflexivity|].
  inversion Hw as [|? ? Hc Hw']; subst.
  simpl app. rewrite split_from_here, no_run_at by exact Hc.
  rewrite IH by exact Hw'. simpl rev. now rewrite <- app_assoc.
Qed.

Lemma truthy_of_list (l : str) :
  truthy (string_of_list_ascii l) = match l with [] => false | _ :: _ => true end.
Proof. destruct l; reflexivity. Qed.

Lemma word_starts_blocked w rest :
  all word_char w -> w <> [] -> blocked non_word_char (w ++ rest).
Proof.
  intros Hw Hne. destruct w as [|c w]; [now elim Hne|].
  inversion Hw; subst. simpl. unfold non_word_char.
  match goal with H : word_char c = true |- _ => now rewrite H end.
Qed.

(** The non-empty pieces that [re.split] gives are the runs of word
    characters.  [piece] is the start of a token already read; it can
    only be followed by the end of the text or by a separator. *)
Lemma split_word_runs s runs :
  word_runs s runs -> forall piece,
  piece = [] \/ blocked word_char s ->
  filter (fun p => truthy (string_of_list_ascii p))
    (split_from non_word_run s 0 piece)
  = filter (fun p => truthy (string_of_list_ascii p)) [rev piece] ++ runs.
Proof.
  induction 1 as [sep Hsep|sep w rest tokens Hsep Hw Hne Hb _ IH]; intros piece Hp.
  - destruct sep as [|c sep].
    + rewrite split_from_nil. now rewrite app_nil_r.
    + rewrite <- (app_nil_r (c :: sep)).
      rewrite split_at_separator; simpl; auto; [|discriminate].
      now rewrite app_nil_r.
  - assert (Hword : filter (fun p => truthy (string_of_list_ascii p))
                      (split_from non_word_run (w ++ rest) 0 [])
                    = w :: tokens).
    { rewrite split_in_word by exact Hw. rewrite IH by (right; exact Hb).
      rewrite app_nil_r, rev_involutive. simpl.
      rewrite truthy_of_list. destruct w; [now elim Hne|reflexivity]. }
    destruct sep as [|c sep].
    + simpl app. destruct Hp as [->|Hp].
      * rewrite Hword. reflexivity.
      * destruct w as [|x w]; [now elim Hne|]. inversion Hw; subst.
        simpl in Hp. congruence.
    + rewrite split_at_separator; auto using word_starts_blocked; [|discriminate].
      cbn [filter]. rewrite Hword.
      destruct (truthy (string_of_list_ascii (rev piece))); reflexivity.
Qed.

Lemma filter_andb {A : Type} (f g : A -> bool) l :
  filter (fun x => f x && g x) l = filter g (filter f l).
Proof.
  induction l as [|x l IH]; simpl; auto.
  destruct (f x); simpl; [destruct (g x)|]; now rewrite IH.
Qed.

Lemma filter_of_map {A B : Type} (f : B -> bool) (h : A -> B) l :
  filter f (map h l) = map h (filter (fun x => f (h x)) l).
Proof.
  induction l as [|x l IH]; simpl; auto.
  destruct (f (h x)); simpl; now rewrite IH.
Qed.

(** The comprehension of the source computes the keywords the
    specification describes. *)
Lemma question_words_spec question runs kept :
  word_runs (list_ascii_of_string (lower question)) runs ->
  Selected (fun word => ~ In word STOP_WORDS) (map string_of_list_ascii runs) kept ->
  question_words question = kept.
Proof.
  intros Hr Hk. unfold question_words, re_split.
  rewrite filter_andb, filter_of_map.
  rewrite (split_word_runs Hr) by now left.
  simpl. apply Selected_filter with (P := fun word => ~ In word STOP_WORDS); auto.
  intros x. apply not_stop_word_iff.
Qed.

(** The loop of the source counts the keywords that occur in the
    abstract. *)
Lemma count_found_spec abstract_lower kept found :
  Selected (fun word => occurs_in word abstract_lower) kept found ->
  count_found abstract_lower kept = Z.of_nat (List.length found).
Proof.
  intros H. rewrite count_found_filter. f_equal. f_equal.
  apply Selected_filter with (P := fun word => occurs_in word abstract_lower); auto.
  intros x. apply contains_occurs.
Qed.

Lemma blocked_after_word_char x s :
  all non_word_char (x :: s) -> blocked word_char (x :: s).
Proof.
  intros H. inversion H as [|? ? Hx _]; subst. simpl.
  unfold non_word_char in Hx. now apply negb_true_iff in Hx.
Qed.

(** Every text has its runs of word characters. *)
Lemma word_runs_exist s : exists runs, word_runs s runs.
Proof.
  induction s as [|c s [runs IH]].
  - exists []. constructor. constructor.
  - destruct (word_char c) eqn:Hc.
    + inversion IH as [sep Hsep|sep w rest tokens Hsep Hw Hne Hb Hrest]; subst.
      * exists [[c]]. apply (word_runs_token (sep := []) (w := [c]) (rest := s));
          auto; try discriminate; try (repeat constructor; auto; fail).
        destruct s as [|x s]; [exact I|now apply blocked_after_word_char].
      * destruct sep as [|x sep].
        -- exists ((c :: w) :: tokens).
           apply (word_runs_token (sep := []) (w := c :: w) (rest := rest));
             auto; try discriminate; try (repeat constructor; auto; fail).
        -- exists ([c] :: w :: tokens).
           apply (word_runs_token (sep := []) (w := [c])
                    (rest := (x :: sep) ++ w ++ rest));
             auto; try discriminate; try (repeat constructor; auto; fail).
           inversion Hsep as [|? ? Hx _]; subst. simpl.
           unfold non_word_char in Hx. now apply negb_true_iff in Hx.
    + assert (Hn : non_word_char c = true) by (unfold non_word_char; now rewrite Hc).
      inversion IH as [sep Hsep|sep w rest tokens Hsep Hw Hne Hb Hrest]; subst.
      * exists []. constructor. constructor; auto.
      * exists (w :: tokens).
        apply (word_runs_token (sep := c :: sep) (w := w) (rest := rest)); auto.
        constructor; auto.
Qed.

(** What [re.split] and the test for empty strings compute are the
    runs of word characters. *)
Lemma word_runs_computed s :
  word_runs s
    (filter (fun p => truthy (string_of_list_ascii p))
       (split_from non_word_run s 0 [])).
Proof.
  destruct (word_runs_exist s) as [runs H].
  rewrite (split_word_runs H) by now left. exact H.
Qed.

(** The description of the keyword test applies to every question and
    every abstract: the runs, the kept tokens and the tokens found
    exist. *)
Lemma keyword_description_total question abstract :
  exists runs kept found,
    word_runs (list_ascii_of_string (lower question)) runs /\
    Selected (fun word => ~ In word STOP_WORDS)
      (map string_of_list_ascii runs) kept /\
    Selected (fun word => occurs_in word (lower abstract)) kept found.
Proof.
  destruct (word_runs_exist (list_ascii_of_string (lower question))) as [runs Hr].
  exists runs. eexists. eexists. split; [exact Hr|]. split.
  - apply Selected_total with (f := fun word => negb (is_stop_word word)).
    intros x. apply not_stop_word_iff.
  - apply Selected_total with (f := contains (lower abstract)).
    intros x. apply contains_occurs.
Qed.

(** C2: take the lower-cased question, split it at its runs of
    non-word characters and keep the non-empty tokens that are not stop
    words.  When at least one token is kept, the answer is
    [found_in_abstract] exactly when the number of kept tokens that
    occur as substrings of the lower-cased abstract is greater than
    half the number of kept tokens, the half being taken as a
    fraction; otherwise it is [not_found_in_abstract]. *)
Theorem answer_threshold client arxiv_id_or_url question arxiv_id paper sent
    runs kept found :
  _extract_arxiv_id arxiv_id_or_url = Some arxiv_id ->
  next_or_None (client (Search_id_list [arxiv_id])) = Returns (Some paper) ->
  word_runs (list_ascii_of_string (lower question)) runs ->
  Selected (fun word => ~ In word STOP_WORDS) (map string_of_list_ascii runs) kept ->
  kept <> [] ->
  Selected (fun word => occurs_in word (lower (summary paper))) kept found ->
  let matched := Z.of_nat (List.length found) in
  let total := Z.of_nat (List.length kept) in
  exists d,
    fst (answer_paper_question client arxiv_id_or_url question sent) = Returns d /\
    get d "status" = Some (Str "success") /\
    (get d "answer_type" = Some (Str "found_in_abstract")
     <-> (inject_Z matched > inject_Z total / 2)%Q) /\
    (get d "answer_type" = Some (Str "not_found_in_abstract")
     <-> ~ (inject_Z matched > inject_Z total / 2)%Q).
Proof.
  intros He Hn Hr Hk Hne Hf matched total.
  destruct (@answer_of_fetched_paper client _ question _ _ sent He Hn) as [message E].
  rewrite E. eexists. split; [reflexivity|]. split; [reflexivity|].
  simpl get. rewrite (question_words_spec question Hr Hk).
  unfold classification. destruct kept as [|w ws]; [now elim Hne|].
  rewrite (count_found_spec Hf). unfold more_than_half, half.
  fold matched. fold total. rewrite <- gt_Q_iff.
  destruct (gt_Q _ _); split; split; intros H;
    try reflexivity; try discriminate; congruence.
Qed.

Lemma answer_threshold_witness :
  exists d,
    fst (answer_paper_question cat_client "arXiv:2303.10130"
           "Which cat or dog study?" []) = Returns d /\
    get d "status" = Some (Str "success") /\
    (get d "answer_type" = Some (Str "found_in_abstract")
     <-> (inject_Z 2 > inject_Z 3 / 2)%Q) /\
    (get d "answer_type" = Some (Str "not_found_in_abstract")
     <-> ~ (inject_Z 2 > inject_Z 3 / 2)%Q).
Proof.
  apply (@answer_threshold cat_client "arXiv:2303.10130"
           "Which cat or dog study?" "2303.10130" cat_paper []
           (map list_ascii_of_string ["which"; "cat"; "or"; "dog"; "study"])
           ["cat"; "dog"; "study"] ["cat"; "study"]).
  - reflexivity.
  - reflexivity.
  - exact (word_runs_computed
             (list_ascii_of_string (lower "Which cat or dog study?"))).
  - exact (Selected_total (fun word => ~ In word STOP_WORDS)
             (fun word => negb (is_stop_word word))
             ["which"; "cat"; "or"; "dog"; "study"] not_stop_word_iff).
  - discriminate.
  - exact (Selected_total (fun word => occurs_in word (lower (summary cat_paper)))
             (contains (lower (summary cat_paper)))
             ["cat"; "dog"; "study"]
             (fun x => contains_occurs (lower (summary cat_paper)) x)).
Defined.

(** ** More on the answers *)

(** A question that keeps exactly one keyword is answered
    [found_in_abstract] exactly when that keyword occurs in the
    lower-cased abstract, as a piece of it and whatever surrounds it
    there. *)
Theorem single_keyword_found client arxiv_id_or_url question arxiv_id paper word sent :
  _extract_arxiv_id arxiv_id_or_url = Some arxiv_id ->
  next_or_None (client (Search_id_list [arxiv_id])) = Returns (Some paper) ->
  question_words question = [word] ->
  exists d,
    fst (answer_paper_question client arxiv_id_or_url question sent) = Returns d /\
    (get d "answer_type" = Some (Str "found_in_abstract")
     <-> exists before after,
           lower (summary paper) = (before ++ word ++ after)%string) /\
    (get d "answer_type" = Some (Str "not_found_in_abstract")
     <-> ~ exists before after,
             lower (summary paper) = (before ++ word ++ after)%string).
Proof.
  intros He Hn Hq.
  destruct (@answer_of_fetched_paper client _ question _ _ sent He Hn) as [message E].
  rewrite E. eexists. split; [reflexivity|]. simpl get. rewrite Hq.
  rewrite <- contains_iff. unfold classification.
  destruct (contains (lower (summary paper)) word) eqn:Hc.
  - rewrite (@count_found_all (lower (summary paper)) [word]) by (constructor; auto).
    rewrite more_than_half_all. split; split; intros H;
      try reflexivity; try discriminate; congruence.
  - rewrite (@count_found_none (lower (summary paper)) [word]) by (constructor; auto).
    rewrite more_than_half_zero. split; split; intros H;
      try reflexivity; try discriminate; congruence.
Qed.

Lemma single_keyword_found_witness :
  exists d,
    fst (answer_paper_question cat_client "2303.10130" "Which stud?" []) = Returns d /\
    (get d "answer_type" = Some (Str "found_in_abstract")
     <-> exists before after,
           lower (summary cat_paper) = (before ++ "stud" ++ after)%string) /\
    (get d "answer_type" = Some (Str "not_found_in_abstract")
     <-> ~ exists before after,
             lower (summary cat_paper) = (before ++ "stud" ++ after)%string).
Proof.
  apply (@single_keyword_found cat_client "2303.10130" "Which stud?"
           "2303.10130" cat_paper "stud" []); reflexivity.
Defined.

(** The answer does not depend on the case of the letters: two
    questions with the same lower-case form, asked about two papers
    whose abstracts have the same lower-case form, get the same answer
    type. *)
Theorem answer_ignores_case client
    id_or_url1 id_or_url2 question1 question2 arxiv_id1 arxiv_id2 paper1 paper2
    sent1 sent2 :
  _extract_arxiv_id id_or_url1 = Some arxiv_id1 ->
  next_or_None (client (Search_id_list [arxiv_id1])) = Returns (Some paper1) ->
  _extract_arxiv_id id_or_url2 = Some arxiv_id2 ->
  next_or_None (client (Search_id_list [arxiv_id2])) = Returns (Some paper2) ->
  lower question1 = lower question2 ->
  lower (summary paper1) = lower (summary paper2) ->
  exists d1 d2,
    fst (answer_paper_question client id_or_url1 question1 sent1) = Returns d1 /\
    fst (answer_paper_question client id_or_url2 question2 sent2) = Returns d2 /\
    get d1 "status" = Some (Str "success") /\
    get d1 "answer_type" = get d2 "answer_type".
Proof.
  intros He1 Hn1 He2 Hn2 Hq Ha.
  destruct (@answer_of_fetched_paper client _ question1 _ _ sent1 He1 Hn1) as [m1 E1].
  destruct (@answer_of_fetched_paper client _ question2 _ _ sent2 He2 Hn2) as [m2 E2].
  rewrite E1, E2. eexists. eexists. repeat split. simpl get.
  unfold classification, question_words. now rewrite Hq, Ha.
Qed.

Lemma answer_ignores_case_witness :
  exists d1 d2,
    fst (answer_paper_question
           (fun search =>
              match search with
              | Search_id_list ["2303.10130"] =>
                  {| items := [cat_paper]; failure := None |}
              | _ =>
                  {| items := [ {| title := "ON CATS"; authors := [];
                                   published_ymd := "2023-03-17";
                                   summary := "A STUDY OF THE CAT.";
                                   entry_id := "http://arxiv.org/abs/2303.10131v1";
                                   primary_category := "cs.CL";
                                   pdf_url := "" |} ];
                     failure := None |}
              end)
           "2303.10130" "Which Cat studies?" []) = Returns d1 /\
    fst (answer_paper_question
           (fun search =>
              match search with
              | Search_id_list ["2303.10130"] =>
                  {| items := [cat_paper]; failure := None |}
              | _ =>
                  {| items := [ {| title := "ON CATS"; authors := [];
                                   published_ymd := "2023-03-17";
                                   summary := "A STUDY OF THE CAT.";
                                   entry_id := "http://arxiv.org/abs/2303.10131v1";
                                   primary_category := "cs.CL";
                                   pdf_url := "" |} ];
                     failure := None |}
              end)
           "2303.10131" "WHICH CAT STUDIES?" []) = Returns d2 /\
    get d1 "status" = Some (Str "success") /\
    get d1 "answer_type" = get d2 "answer_type".
Proof.
  eapply answer_ignores_case; reflexivity.
Defined.

(** The identifier field of a search result is refused by the summary
    when the entry identifier ends with a legacy identifier.  The
    identifier is a category, a slash and a number with its version;
    the field holds the number with its version, without the category;
    the extractor finds no identifier in it; the summary called on it
    returns the error of an invalid format and sends no request. *)
Theorem legacy_search_result_is_refused client result base id sent :
  entry_id result = (base ++ id)%string ->
  fullmatch legacy_id id ->
  exists category number,
    id = (category ++ String "/" number)%string /\
    all id_prefix_char (list_ascii_of_string category) /\
    fullmatch legacy_number number /\
    field (paper_details result) "arxiv_id" = Some (Str number) /\
    _extract_arxiv_id number = None /\
    summarize_arxiv_paper client number sent
    = (Returns [ ("status", Str "error");
                 ("message", Str "Invalid arXiv ID or URL format.") ], sent).
Proof.
  unfold fullmatch. intros E Hid.
  apply legacy_id_inv in Hid as (pre & d7 & v & Eid & Hpre & _ & Hd & Ld & Hv).
  set (number := string_of_list_ascii (d7 ++ v)).
  assert (Eid' : id = (string_of_list_ascii pre ++ String "/" number)%string).
  { apply list_ascii_of_string_inj.
    rewrite list_ascii_of_string_app. simpl. unfold number.
    now rewrite !list_ascii_of_string_of_list_ascii. }
  assert (Hchars : forall c, In c (list_ascii_of_string number) ->
                             c <> "."%char /\ c <> "/"%char).
  { intros c Hc. unfold number in Hc.
    rewrite list_ascii_of_string_of_list_ascii in Hc.
    eapply number_and_version_chars; eauto. }
  assert (Hnone : _extract_arxiv_id number = None).
  { destruct (_extract_arxiv_id number) as [r|] eqn:He; auto. exfalso.
    apply extract_inv in He as (g & rest & Hb & Hg & _).
    apply re_search_sound in Hb as (_ & before & after & Es).
    assert (Hsub : forall c, In c g -> In c (list_ascii_of_string number)).
    { intros c Hc. rewrite Es. apply in_or_app. right. apply in_or_app. now left. }
    destruct (broad_has_dot_or_slash Hg) as [H|H]; apply Hsub, Hchars in H; tauto. }
  exists (string_of_list_ascii pre), number.
  split; [exact Eid'|]. split; [now rewrite list_ascii_of_string_of_list_ascii|].
  split; [|split; [|split; auto]].
  - unfold number, legacy_number. rewrite list_ascii_of_string_of_list_ascii.
    apply MSeq; auto. constructor; simpl; auto; lia.
  - simpl. rewrite E, Eid'.
    replace (base ++ string_of_list_ascii pre ++ String "/" number)%string
      with ((base ++ string_of_list_ascii pre) ++ String "/" number)%string.
    + rewrite last_item_after_sep; auto.
      intros Hin. apply Hchars in Hin. tauto.
    + apply list_ascii_of_string_inj.
      rewrite !list_ascii_of_string_app. now rewrite <- app_assoc.
  - unfold summarize_arxiv_paper, try_except, ret. now rewrite Hnone.
Qed.

Lemma legacy_search_result_is_refused_witness :
  exists category number,
    "hep-th/0101001v1" = (category ++ String "/" number)%string /\
    all id_prefix_char (list_ascii_of_string category) /\
    fullmatch legacy_number number /\
    field (paper_details
             {| title := "Strings"; authors := ["C. Author"];
                published_ymd := "2001-01-01"; summary := "On strings.";
                entry_id := "http://arxiv.org/abs/hep-th/0101001v1";
                primary_category := "hep-th";
                pdf_url := "http://arxiv.org/pdf/hep-th/0101001v1" |})
      "arxiv_id" = Some (Str number) /\
    _extract_arxiv_id number = None /\
    summarize_arxiv_paper cat_client number []
    = (Returns [ ("status", Str "error");
                 ("message", Str "Invalid arXiv ID or URL format.") ], []).
Proof.
  eapply (@legacy_search_result_is_refused cat_client _ "http://arxiv.org/abs/"
            "hep-th/0101001v1" []).
  - reflexivity.
  - apply re_fullmatch_sound. reflexivity.
Defined.
